(** * terminal_doom: the raycaster, movement and combat of [doom_v2.py]

    A shallow embedding of the per-frame logic of [main] in [doom_v2.py]:
    key handling (movement, turning, shooting), the per-column ray
    marcher and the ceiling/floor projection.

    Numbers.  Python floats are idealised as exact rationals ([Q]); Python
    ints are [Z].  [int(f)] truncates toward zero, [%] on floats follows
    the sign of the divisor.  The functions of Python's [math] module
    and [random.random] are not defined by the program; they are taken
    as an interface ([Math]) and as a stream of draws. *)

From Stdlib Require Import ZArith QArith Qround Qabs List String Ascii Bool Lia Lqa.
Import ListNotations.

Local Open Scope Z_scope.
Local Open Scope Q_scope.

(** ** Python primitives *)

Module Py.

(** [a < b] on floats, as a boolean. *)
Definition ltb (a b : Q) : bool := (Qnum a * QDen b <? Qnum b * QDen a)%Z.

(** [int(q)]: truncation toward zero. *)
Definition int (q : Q) : Z := Z.quot (Qnum q) (Zpos (Qden q)).

(** [a % m] on floats. *)
Definition fmod (a m : Q) : Q := a - m * inject_Z (Qfloor (a / m)).

(** [abs(a)]. *)
Definition abs (a : Q) : Q := if ltb a 0 then - a else a.

(** [l[i]] on a list, with Python's negative indices. *)
Definition index {A : Type} (l : list A) (i : Z) : option A :=
  let n := Z.of_nat (List.length l) in
  if (i <? 0)%Z
  then (if (n + i <? 0)%Z then None else nth_error l (Z.to_nat (n + i)))
  else nth_error l (Z.to_nat i).

(** [s[i]] on a string. *)
Definition char_at (s : string) (i : Z) : option ascii :=
  let n := Z.of_nat (String.length s) in
  if (i <? 0)%Z
  then (if (n + i <? 0)%Z then None else String.get (Z.to_nat (n + i)) s)
  else String.get (Z.to_nat i) s.

End Py.

(** ** Exceptions and non-termination *)

Inductive exn : Type := IndexError | ZeroDivisionError.

(** The outcome of running a piece of the program: a value, a raised
    exception, or [Diverge] when the iteration budget given to a loop
    was not enough. *)
Inductive res (A : Type) : Type :=
| Ret (a : A)
| Raise (e : exn)
| Diverge.
Arguments Ret {A} a.
Arguments Raise {A} e.
Arguments Diverge {A}.

Definition bind {A B : Type} (m : res A) (k : A -> res B) : res B :=
  match m with
  | Ret a => k a
  | Raise e => Raise e
  | Diverge => Diverge
  end.

Notation "x <- m ;; k" := (bind m (fun x => k))
  (at level 61, m at next level, right associativity).

Definition of_option {A : Type} (o : option A) (e : exn) : res A :=
  match o with Some a => Ret a | None => Raise e end.

(** ** The [math] module, as an interface *)

Class Math : Type := {
  m_cos : Q -> Q;
  m_sin : Q -> Q;
  m_radians : Q -> Q;
  m_degrees : Q -> Q;
  m_atan2 : Q -> Q -> Q;
  m_sqrt : Q -> Q
}.

(** ** Grid model *)

Definition grid : Type := list string.

Definition MAP : grid := [
  "########################################";
  "#......................................#";
  "#...###LLL#............................#";
  "#...#C...#............................P#";
  "#...#....D.........................#####";
  "#...######...........................###";
  "#....P...P............................##";
  "#....####...........................####";
  "#....#..#.............................##";
  "#....#C.#....###......................##";
  "#....####....#C#......................##";
  "#............###.....................###";
  "#...P................................P##";
  "#...#...#...#...#.....................##";
  "#......................................#";
  "########################################"
]%string.

Definition FOV : Z := 70.
Definition DEPTH : Z := 16.

(** [len(MAP)] *)
Definition height (g : grid) : Z := Z.of_nat (List.length g).

(** [len(MAP[0])] *)
Definition width (g : grid) : res Z :=
  r <- of_option (Py.index g 0) IndexError ;;
  Ret (Z.of_nat (String.length r)).

(** [MAP[y][x]] *)
Definition cell (g : grid) (y x : Z) : res ascii :=
  r <- of_option (Py.index g y) IndexError ;;
  of_option (Py.char_at r x) IndexError.

(** Every row as long as the first, and at least one row. *)
Definition rectangular (g : grid) : bool :=
  match g with
  | [] => false
  | r0 :: rs => forallb (fun r => Nat.eqb (String.length r) (String.length r0)) rs
  end.

(** ** Ray marcher (the [while] loop of the column renderer) *)

Definition step_size : Q := 2 # 100.

(** The locals the loop reads and writes. *)
Record ray : Type := mkRay {
  ray_x : Q;
  ray_y : Q;
  distance_to_wall : Q;
  hit_wall : bool;
  hit_lower_wall : bool;
  hit_pillar : bool;
  hit_corner : bool;
  boundary : bool;
  wall_orientation : Z;
  adjacent_walls : list (Z * Z)
}.

Definition ray_start (player_x player_y : Q) : ray :=
  mkRay player_x player_y 0 false false false false false 0 [].

(** The [if test_x < 0.02 ... elif ...] chain; [o] is the orientation
    before the test. *)
Definition wall_side (test_x test_y : Q) (o : Z) : Z :=
  if Py.ltb test_x (2 # 100) then 0%Z
  else if Py.ltb (98 # 100) test_x then 0%Z
  else if Py.ltb test_y (2 # 100) then 1%Z
  else if Py.ltb (98 # 100) test_y then 1%Z
  else o.

Definition on_edge (test_x test_y : Q) : bool :=
  Py.ltb test_x (2 # 100) || Py.ltb (98 # 100) test_x
  || Py.ltb test_y (2 # 100) || Py.ltb (98 # 100) test_y.

Definition neighbours : list (Z * Z) := [(0, 1); (1, 0); (0, -1); (-1, 0)]%Z.

(** The [for dx, dy in ...] loop counting the adjacent ['#'] cells. *)
Fixpoint count_adjacent (g : grid) (map_x map_y : Z) (ds : list (Z * Z))
  (adjacent_count : Z) (adj : list (Z * Z)) : res (Z * list (Z * Z)) :=
  match ds with
  | [] => Ret (adjacent_count, adj)
  | (dx, dy) :: ds' =>
    let nx := (map_x + dx)%Z in
    let ny := (map_y + dy)%Z in
    if (0 <=? ny)%Z && (ny <? height g)%Z then
      w <- width g ;;
      if (0 <=? nx)%Z && (nx <? w)%Z then
        ch <- cell g ny nx ;;
        if Ascii.eqb ch "#"
        then count_adjacent g map_x map_y ds' (adjacent_count + 1)%Z (adj ++ [(dx, dy)])
        else count_adjacent g map_x map_y ds' adjacent_count adj
      else count_adjacent g map_x map_y ds' adjacent_count adj
    else count_adjacent g map_x map_y ds' adjacent_count adj
  end.

Section Marcher.
Context {M : Math}.
Variable g : grid.
Variable depth : Q.
Variables player_x player_y ray_angle_rad : Q.

(** One iteration of the loop body. *)
Definition cast_step (r : ray) : res ray :=
  let d := distance_to_wall r + step_size in
  let rx := player_x + m_cos ray_angle_rad * d in
  let ry := player_y + m_sin ray_angle_rad * d in
  let map_x := Py.int rx in
  let map_y := Py.int ry in
  let out :=
    mkRay rx ry depth true (hit_lower_wall r) (hit_pillar r) (hit_corner r)
          (boundary r) (wall_orientation r) (adjacent_walls r) in
  if (map_x <? 0)%Z || (map_y <? 0)%Z then Ret out
  else
    w <- width g ;;
    if (map_x >=? w)%Z || (map_y >=? height g)%Z then Ret out
    else
      ch <- cell g map_y map_x ;;
      if Ascii.eqb ch "#" then
        let test_x := rx - inject_Z map_x in
        let test_y := ry - inject_Z map_y in
        let o := wall_side test_x test_y (wall_orientation r) in
        let b := if on_edge test_x test_y then true else boundary r in
        ca <- count_adjacent g map_x map_y neighbours 0 (adjacent_walls r) ;;
        let c := if (fst ca >=? 3)%Z then true else hit_corner r in
        Ret (mkRay rx ry d true (hit_lower_wall r) (hit_pillar r) c b o (snd ca))
      else if Ascii.eqb ch "L" then
        let test_x := rx - inject_Z map_x in
        let test_y := ry - inject_Z map_y in
        let o := wall_side test_x test_y (wall_orientation r) in
        let b := if on_edge test_x test_y then true else boundary r in
        Ret (mkRay rx ry d true true (hit_pillar r) (hit_corner r) b o (adjacent_walls r))
      else if Ascii.eqb ch "P" then
        Ret (mkRay rx ry d true (hit_lower_wall r) true (hit_corner r) true
                   (wall_orientation r) (adjacent_walls r))
      else if Ascii.eqb ch "C" then
        Ret (mkRay rx ry d true (hit_lower_wall r) (hit_pillar r) true true
                   (wall_orientation r) (adjacent_walls r))
      else
        Ret (mkRay rx ry d (hit_wall r) (hit_lower_wall r) (hit_pillar r) (hit_corner r)
                   (boundary r) (wall_orientation r) (adjacent_walls r)).

(** [while not hit_wall and distance_to_wall < DEPTH], run for at most
    [fuel] iterations. *)
Fixpoint cast_loop (fuel : nat) (r : ray) : res ray :=
  if negb (hit_wall r) && Py.ltb (distance_to_wall r) depth then
    match fuel with
    | O => Diverge
    | S fuel' => r' <- cast_step r ;; cast_loop fuel' r'
    end
  else Ret r.

(** Iterations that are always enough: the distance grows by
    [step_size] each time. *)
Definition cast_fuel : nat := Z.to_nat (Qceiling (depth / step_size)).

Definition cast_ray : res ray := cast_loop cast_fuel (ray_start player_x player_y).

End Marcher.

(** ** Column projector: ray angle, fisheye correction, ceiling and floor *)

(** The [ceiling]/[floor] rows of one column, after the two clamps.
    A zero [corrected_distance] makes the float division raise. *)
Definition column_span (view_height : Z) (lower : bool) (corrected_distance : Q)
  : res (Z * Z) :=
  if Qeq_bool corrected_distance 0 then Raise ZeroDivisionError
  else
    let vh := inject_Z view_height in
    let ceiling :=
      if lower
      then Py.int (vh / 2 - (vh / corrected_distance) * (5 # 10))
      else Py.int (vh / 2 - vh / corrected_distance) in
    let floor :=
      if lower
      then Py.int (vh / 2 + (vh / corrected_distance) * (5 # 10))
      else Py.int (vh / 2 + vh / corrected_distance) in
    Ret (Z.max 0 ceiling, Z.min (view_height - 1) floor).

Definition span_rows (cf : Z * Z) : Z := (snd cf - fst cf)%Z.

Section Column.
Context {M : Math}.

(** [ray_angle] of screen column [x] of [width] columns. *)
Definition ray_angle (player_angle : Q) (width x : Z) : Q :=
  (player_angle - inject_Z FOV / 2)
  + (inject_Z x / inject_Z (Z.min width 1000) * inject_Z FOV).

Definition corrected_angle (player_angle : Q) (width x : Z) : Q :=
  ray_angle player_angle width x - player_angle.

Definition fisheye_correction (player_angle : Q) (width x : Z) : Q :=
  m_cos (m_radians (corrected_angle player_angle width x)).

(** What the renderer computes for column [x] before drawing: the
    marched ray, the corrected distance and the clamped rows. *)
Definition column (g : grid) (player_x player_y player_angle : Q)
  (width view_height x : Z) : res (ray * Q * (Z * Z)) :=
  let a := ray_angle player_angle width x in
  r <- cast_ray g (inject_Z DEPTH) player_x player_y (m_radians a) ;;
  let corrected_distance := distance_to_wall r * fisheye_correction player_angle width x in
  cf <- column_span view_height (hit_lower_wall r) corrected_distance ;;
  Ret (r, corrected_distance, cf).

End Column.

(** ** Actor model *)

(** [[x, y, alive, type]] *)
Record enemy : Type := mkEnemy {
  e_x : Z;
  e_y : Z;
  e_alive : bool;
  e_type : Z
}.

Definition ENEMIES : list enemy := [
  mkEnemy 5 3 true 0;
  mkEnemy 10 5 true 0;
  mkEnemy 8 8 true 1;
  mkEnemy 15 7 true 0;
  mkEnemy 12 10 true 2;
  mkEnemy 18 8 true 1;
  mkEnemy 20 12 true 0
]%Z.

(** The mutable variables of [main] that the key handler touches, the
    enemy list, and [draws]: how many values [random.random] has
    returned so far. *)
Record game : Type := mkGame {
  player_x : Q;
  player_y : Q;
  player_angle : Q;
  player_health : Z;
  ammo : Z;
  score : Z;
  shooting : bool;
  shot_timer : Z;
  running : bool;
  enemies : list enemy;
  draws : nat
}.

Definition initial : game :=
  mkGame 2 2 0 100 50 0 false 0 true ENEMIES 0.

Definition move_step : Q := 3 # 10.
Definition turn_step : Q := 3.

Definition set_position (s : game) (x y : Q) : game :=
  mkGame x y (player_angle s) (player_health s) (ammo s) (score s)
         (shooting s) (shot_timer s) (running s) (enemies s) (draws s).

Definition set_angle (s : game) (a : Q) : game :=
  mkGame (player_x s) (player_y s) a (player_health s) (ammo s) (score s)
         (shooting s) (shot_timer s) (running s) (enemies s) (draws s).

(** ** Movement resolver *)

(** The guard
    [0 <= int(new_y) < len(MAP) and 0 <= int(new_x) < len(MAP[0])
     and MAP[int(new_y)][int(new_x)] not in ['#', 'P']]. *)
Definition can_enter (g : grid) (new_x new_y : Q) : res bool :=
  let iy := Py.int new_y in
  let ix := Py.int new_x in
  if (0 <=? iy)%Z && (iy <? height g)%Z then
    w <- width g ;;
    if (0 <=? ix)%Z && (ix <? w)%Z then
      ch <- cell g iy ix ;;
      Ret (negb (Ascii.eqb ch "#" || Ascii.eqb ch "P"))
    else Ret false
  else Ret false.

Definition try_move (g : grid) (s : game) (new_x new_y : Q) : res game :=
  ok <- can_enter g new_x new_y ;;
  Ret (if ok then set_position s new_x new_y else s).

(** ** Combat resolver *)

Section Combat.
Context {M : Math}.
Variable rand : nat -> Q.

Definition distance (x1 y1 x2 y2 : Q) : Q :=
  m_sqrt ((x2 - x1) ^ 2 + (y2 - y1) ^ 2).

Definition angle_diff_to (px py pa : Q) (e : enemy) : Q :=
  let angle_to_enemy :=
    m_degrees (m_atan2 (inject_Z (e_y e) - py) (inject_Z (e_x e) - px)) in
  Py.fmod (angle_to_enemy - pa + 180) 360 - 180.

Definition in_sights (px py pa : Q) (e : enemy) : bool :=
  Py.ltb (Py.abs (angle_diff_to px py pa e)) (inject_Z FOV / 2)
  && Py.ltb (distance px py (inject_Z (e_x e)) (inject_Z (e_y e))) (inject_Z DEPTH).

Definition class_factor (t : Z) : Q :=
  if (t =? 0)%Z then 1 else if (t =? 1)%Z then 7 # 10 else 5 # 10.

Definition hit_chance (px py : Q) (e : enemy) : Q :=
  let dist := distance px py (inject_Z (e_x e)) (inject_Z (e_y e)) in
  (1 - (dist / inject_Z DEPTH) * (8 # 10)) * class_factor (e_type e).

(** The [for enemy in ENEMIES] loop of a shot: the enemies after the
    loop, the number of draws made so far and the score. *)
Fixpoint scan (px py pa : Q) (es : list enemy) (k : nat) (sc : Z)
  : list enemy * nat * Z :=
  match es with
  | [] => ([], k, sc)
  | e :: es' =>
    if e_alive e && in_sights px py pa e then
      if Py.ltb (rand k) (hit_chance px py e) then
        (mkEnemy (e_x e) (e_y e) false (e_type e) :: es', S k,
         (sc + 100 * (e_type e + 1))%Z)
      else
        let '(es'', k', sc') := scan px py pa es' (S k) sc in
        (e :: es'', k', sc')
    else
      let '(es'', k', sc') := scan px py pa es' k sc in
      (e :: es'', k', sc')
  end.

Definition shoot (s : game) : game :=
  if (ammo s >? 0)%Z then
    let '(es, k, sc) :=
      scan (player_x s) (player_y s) (player_angle s) (enemies s) (draws s) (score s) in
    mkGame (player_x s) (player_y s) (player_angle s) (player_health s)
           (ammo s - 1) sc true 0 (running s) es k
  else s.

(** ** One frame: the key handler, then the weapon animation *)

Definition ord_x : Z := 120.
Definition ord_w : Z := 119.
Definition ord_s : Z := 115.
Definition ord_a : Z := 97.
Definition ord_d : Z := 100.
Definition ord_q : Z := 113.
Definition ord_e : Z := 101.
Definition ord_space : Z := 32.

Definition dcos (a : Q) : Q := m_cos (m_radians a).
Definition dsin (a : Q) : Q := m_sin (m_radians a).

Definition handle_key (g : grid) (key : Z) (s : game) : res game :=
  if (key =? -1)%Z then Ret s
  else if (key =? ord_x)%Z then
    Ret (mkGame (player_x s) (player_y s) (player_angle s) (player_health s) (ammo s)
                (score s) (shooting s) (shot_timer s) false (enemies s) (draws s))
  else if (key =? ord_w)%Z then
    try_move g s (player_x s + dcos (player_angle s) * move_step)
                 (player_y s + dsin (player_angle s) * move_step)
  else if (key =? ord_s)%Z then
    try_move g s (player_x s - dcos (player_angle s) * move_step)
                 (player_y s - dsin (player_angle s) * move_step)
  else if (key =? ord_a)%Z then
    let strafe_angle := player_angle s - 90 in
    try_move g s (player_x s + dcos strafe_angle * move_step)
                 (player_y s + dsin strafe_angle * move_step)
  else if (key =? ord_d)%Z then
    let strafe_angle := player_angle s + 90 in
    try_move g s (player_x s + dcos strafe_angle * move_step)
                 (player_y s + dsin strafe_angle * move_step)
  else if (key =? ord_q)%Z then
    Ret (set_angle s (Py.fmod (player_angle s - turn_step) 360))
  else if (key =? ord_e)%Z then
    Ret (set_angle s (Py.fmod (player_angle s + turn_step) 360))
  else if (key =? ord_space)%Z then Ret (shoot s)
  else Ret s.

(** The only state the drawing code writes: the muzzle-flash timer,
    in the weapon block, which runs when the terminal has more than 8
    rows. *)
Definition draw_weapon (term_height : Z) (s : game) : game :=
  if (term_height >? 8)%Z then
    if shooting s && (shot_timer s <? 3)%Z then
      mkGame (player_x s) (player_y s) (player_angle s) (player_health s) (ammo s)
             (score s) (shooting s) (shot_timer s + 1) (running s) (enemies s) (draws s)
    else
      mkGame (player_x s) (player_y s) (player_angle s) (player_health s) (ammo s)
             (score s) false 0 (running s) (enemies s) (draws s)
  else s.

(** One pass of the [while running] body: a key (or -1) and the terminal
    height of that frame. *)
Definition frame (g : grid) (input : Z * Z) (s : game) : res game :=
  s' <- handle_key g (fst input) s ;;
  Ret (draw_weapon (snd input) s').

(** The game loop over a finite sequence of inputs. *)
Fixpoint run (g : grid) (inputs : list (Z * Z)) (s : game) : res game :=
  match inputs with
  | [] => Ret s
  | i :: rest =>
    if running s then s' <- frame g i s ;; run g rest s' else Ret s
  end.

End Combat.

(** ** A computable instance of the [math] interface

    Rational stand-ins used to run the model on concrete inputs: the
    sine is Bhaskara's approximation (exact at 0, 30, 90, 150 and 180
    degrees, within 0.002 elsewhere), [pi] is 355/113, the square root
    is exact on squares of multiples of 10^-6. *)

Module Approx.

Definition pi : Q := 355 # 113.

Definition half_wave (t : Q) : Q :=
  4 * t * (180 - t) / (40500 - t * (180 - t)).

Definition sin_deg (a : Q) : Q :=
  let t := Py.fmod a 360 in
  Qred (if Py.ltb 180 t then - half_wave (t - 180) else half_wave t).

Definition cos_deg (a : Q) : Q := sin_deg (a + 90).

Definition radians (a : Q) : Q := Qred (a * pi / 180).
Definition degrees (r : Q) : Q := Qred (r * 180 / pi).

(** arctangent in degrees on [-1, 1] *)
Definition atan_deg (z : Q) : Q :=
  45 * z - z * (Py.abs z - 1) * ((1402 # 100) + (380 # 100) * Py.abs z).

Definition atan2_deg (y x : Q) : Q :=
  if Qeq_bool x 0 && Qeq_bool y 0 then 0
  else if Py.ltb (Py.abs x) (Py.abs y) then
    (if Py.ltb 0 y then 90 else -90) - atan_deg (x / y)
  else
    let b := atan_deg (y / x) in
    if Py.ltb 0 x then b else if Py.ltb y 0 then b - 180 else b + 180.

Definition sqrt (q : Q) : Q :=
  Qred (inject_Z (Z.sqrt (Qfloor (q * 1000000000000))) / 1000000).

#[export] Instance math : Math := {|
  m_cos := fun r => cos_deg (degrees r);
  m_sin := fun r => sin_deg (degrees r);
  m_radians := radians;
  m_degrees := degrees;
  m_atan2 := fun y x => radians (atan2_deg y x);
  m_sqrt := sqrt
|}.

End Approx.


(** ** Vocabulary of the specification *)

(** The spec's [classify]: what the marcher finds in an integer cell. *)
Inductive probe : Type :=
| Outside
| Solid (ch : ascii)
| Clear (ch : ascii).

(** Tiles that stop a ray: Wall, LowerWall, Pillar, CornerDecoration. *)
Definition solid (ch : ascii) : bool :=
  Ascii.eqb ch "#" || Ascii.eqb ch "L" || Ascii.eqb ch "P" || Ascii.eqb ch "C".

Definition classify (g : grid) (mx my : Z) : res probe :=
  if (mx <? 0)%Z || (my <? 0)%Z then Ret Outside
  else
    w <- width g ;;
    if (mx >=? w)%Z || (my >=? height g)%Z then Ret Outside
    else
      ch <- cell g my mx ;;
      Ret (if solid ch then Solid ch else Clear ch).

(** The distance after [n] iterations: [n] additions of [step_size]. *)
Fixpoint travelled (n : nat) : Q :=
  match n with
  | O => 0
  | S k => travelled k + step_size
  end.

(** Is the in-bounds cell [(x, y)] a ['#']? *)
Definition is_wall (g : grid) (x y : Z) : bool :=
  if (0 <=? y)%Z && (y <? height g)%Z then
    match width g with
    | Ret w =>
      (0 <=? x)%Z && (x <? w)%Z
      && match cell g y x with Ret ch => Ascii.eqb ch "#" | _ => false end
    | _ => false
    end
  else false.

(** The orthogonal neighbours of [(mx, my)] that are walls, as offsets. *)
Definition wall_neighbours (g : grid) (mx my : Z) : list (Z * Z) :=
  filter (fun d => is_wall g (mx + fst d) (my + snd d)) neighbours.

(** A fresh ray state that has marched [k] steps without a hit. *)
Definition clean_at (k : nat) (r : ray) : Prop :=
  distance_to_wall r = travelled k /\ hit_wall r = false
  /\ hit_lower_wall r = false /\ hit_pillar r = false /\ hit_corner r = false
  /\ boundary r = false /\ wall_orientation r = 0%Z /\ adjacent_walls r = [].

(** The ray state right after a hit on tile [ch] at point [(sx, sy)],
    distance [d]. *)
Definition struck (g : grid) (ch : ascii) (sx sy d : Q) : ray :=
  let mx := Py.int sx in
  let my := Py.int sy in
  let tx := sx - inject_Z mx in
  let ty := sy - inject_Z my in
  if Ascii.eqb ch "#" then
    mkRay sx sy d true false false
          (3 <=? Z.of_nat (List.length (wall_neighbours g mx my)))%Z
          (on_edge tx ty) (wall_side tx ty 0) (wall_neighbours g mx my)
  else if Ascii.eqb ch "L" then
    mkRay sx sy d true true false false (on_edge tx ty) (wall_side tx ty 0) []
  else if Ascii.eqb ch "P" then
    mkRay sx sy d true false true false true 0 []
  else
    mkRay sx sy d true false false true true 0 [].

(** Near a cell side: the fractional coordinate is within the edge
    tolerance of 0 or of 1. *)
Definition near_side (t : Q) : Prop := t < 2 # 100 \/ 98 # 100 < t.

(** The enemy list seen through what never changes, and the order of
    "may only die": same place and class at every index, and nobody
    comes back to life. *)
Definition same_or_died (e e' : enemy) : Prop :=
  e_x e' = e_x e /\ e_y e' = e_y e /\ e_type e' = e_type e
  /\ (e_alive e' = true -> e_alive e = true).


(** The points a ray visits and what the marcher finds there. *)
Section Samples.
Context {M : Math}.
Variable g : grid.
Variable depth : Q.
Variables px py rad : Q.

Definition sample_x (n : nat) : Q := px + m_cos rad * travelled n.
Definition sample_y (n : nat) : Q := py + m_sin rad * travelled n.

Definition probe_at (n : nat) : res probe :=
  classify g (Py.int (sample_x n)) (Py.int (sample_y n)).

(** The state after leaving the map at sample [n]. *)
Definition outside_ray (n : nat) : ray :=
  mkRay (sample_x n) (sample_y n) depth true false false false false 0 [].

(** The state after a sample in a transparent cell. *)
Definition clear_ray (n : nat) : ray :=
  mkRay (sample_x n) (sample_y n) (travelled n) false false false false false 0 [].

(** The three ways the loop ends after its [n]-th iteration. *)
Definition finished (n : nat) (r : ray) : Prop :=
  (probe_at n = Ret Outside /\ r = outside_ray n)
  \/ (exists ch, probe_at n = Ret (Solid ch)
                 /\ r = struck g ch (sample_x n) (sample_y n) (travelled n))
  \/ (exists ch, probe_at n = Ret (Clear ch) /\ r = clear_ray n
                 /\ depth <= travelled n).

End Samples.

(** Tiles a move may end on: everything but Wall and Pillar. *)
Definition passable (ch : ascii) : bool :=
  negb (Ascii.eqb ch "#" || Ascii.eqb ch "P").

(** The destination cell of [(nx, ny)] is inside the grid and holds a
    passable tile. *)
Definition enterable (g : grid) (nx ny : Q) : Prop :=
  exists w ch,
    width g = Ret w
    /\ (0 <= Py.int ny < height g)%Z /\ (0 <= Py.int nx < w)%Z
    /\ cell g (Py.int ny) (Py.int nx) = Ret ch
    /\ passable ch = true.



(** A constant stream of draws, for running the model. *)
Definition no_luck : nat -> Q := fun _ => 1.
Definition sure_hit : nat -> Q := fun _ => 0.

(** The living enemies a shot considers, in enumeration order. *)
Definition targets {M : Math} (px py pa : Q) (es : list enemy) : list enemy :=
  filter (fun e => e_alive e && in_sights px py pa e) es.

(** Every target of [ts] lost its draw; the [j]-th target gets draw
    number [k + j]. *)
Definition all_missed {M : Math} (rand : nat -> Q) (px py : Q) (k : nat)
  (ts : list enemy) : Prop :=
  forall j t, nth_error ts j = Some t -> hit_chance px py t <= rand (k + j)%nat.

Definition slain (e : enemy) : enemy :=
  mkEnemy (e_x e) (e_y e) false (e_type e).

(** States the game can be in: ammunition is not negative and the
    classes are ranks from 0 up. *)
Definition sound (s : game) : Prop :=
  (0 <= ammo s)%Z /\ Forall (fun e => (0 <= e_type e)%Z) (enemies s).



(** ** Drawing a column: sprites, textures, rows *)

(** [min(a, b)] and [max(a, b)] on floats, and [a <= b]. *)
Definition fmin (a b : Q) : Q := if Py.ltb b a then b else a.
Definition fmax (a b : Q) : Q := if Py.ltb a b then b else a.
Definition fle (a b : Q) : bool := negb (Py.ltb b a).

(** What [addch] is given: the character (as a code point), the colour
    pair and whether [A_BOLD] is set. *)
Record glyph : Type := mkGlyph {
  g_char : Z;
  g_pair : Z;
  g_bold : bool
}.

Definition ns_wall_textures : list Z :=
  [9474; 9553; 9475; 9483; 9479; 9550; 9551; 9478]%Z.
Definition ew_wall_textures : list Z :=
  [9472; 9552; 9473; 9477; 9481; 9548; 9549; 9476]%Z.
Definition pillar_textures : list Z :=
  [9580; 9578; 9579; 9547; 9538; 9532; 9545; 9546]%Z.
Definition corner_textures : list Z :=
  [9556; 9559; 9562; 9565; 9484; 9488; 9492; 9496]%Z.

(** [min(int(corrected_distance / DEPTH * len(t)), len(t) - 1)] *)
Definition texture_idx (corrected_distance : Q) (t : list Z) : Z :=
  Z.min (Py.int (corrected_distance / inject_Z DEPTH * inject_Z (Z.of_nat (List.length t))))
        (Z.of_nat (List.length t) - 1).

(** [t[texture_idx]] *)
Definition texture (corrected_distance : Q) (t : list Z) : res Z :=
  of_option (Py.index t (texture_idx corrected_distance t)) IndexError.

(** The wall character of a column, by kind and orientation. *)
Definition wall_glyph (r : ray) (corrected_distance : Q) : res glyph :=
  if hit_pillar r then
    c <- texture corrected_distance pillar_textures ;; Ret (mkGlyph c 10 false)
  else if hit_corner r then
    c <- texture corrected_distance corner_textures ;; Ret (mkGlyph c 11 false)
  else if hit_lower_wall r then
    Ret (mkGlyph (if Py.ltb corrected_distance (inject_Z DEPTH / 4) then 9608
                  else if Py.ltb corrected_distance (inject_Z DEPTH / 2) then 9619
                  else 9618) 9 false)
  else if (wall_orientation r =? 0)%Z then
    c <- texture corrected_distance ns_wall_textures ;; Ret (mkGlyph c 1 true)
  else
    c <- texture corrected_distance ew_wall_textures ;; Ret (mkGlyph c 12 false).

(** [enemy_hit], [enemy_distance] ([None] is [float('inf')]) and
    [enemy_type]. *)
Record sprite : Type := mkSprite {
  enemy_hit : bool;
  enemy_distance : option Q;
  enemy_type : Z
}.

Definition no_sprite : sprite := mkSprite false None 0.

(** [dist < enemy_distance] *)
Definition nearer (dist : Q) (best : option Q) : bool :=
  match best with
  | None => true
  | Some b => Py.ltb dist b
  end.

Section Sprites.
Context {M : Math}.
Variables px py ray_angle corrected_distance : Q.

Definition ray_diff_to (e : enemy) : Q :=
  let angle_to_enemy :=
    m_degrees (m_atan2 (inject_Z (e_y e) - py) (inject_Z (e_x e) - px)) in
  Py.fmod (angle_to_enemy - ray_angle + 180) 360 - 180.

Definition enemy_dist (e : enemy) : Q :=
  distance px py (inject_Z (e_x e)) (inject_Z (e_y e)).

(** In front of the wall and within 3 degrees of the ray. *)
Definition in_column (e : enemy) : bool :=
  Py.ltb (Py.abs (ray_diff_to e)) 3 && Py.ltb (enemy_dist e) corrected_distance.

(** The [for enemy in ENEMIES] loop of the column renderer. *)
Fixpoint find_enemy (es : list enemy) (sp : sprite) : sprite :=
  match es with
  | [] => sp
  | e :: es' =>
    if e_alive e then
      if in_column e && nearer (enemy_dist e) (enemy_distance sp)
      then find_enemy es' (mkSprite true (Some (enemy_dist e)) (e_type e))
      else find_enemy es' sp
    else find_enemy es' sp
  end.

End Sprites.

(** The enemy character of an animation frame. *)
Definition enemy_glyph (enemy_type frame : Z) : res glyph :=
  if (enemy_type =? 0)%Z then
    c <- of_option (Py.index [38; 64; 38]%Z frame) IndexError ;; Ret (mkGlyph c 4 false)
  else if (enemy_type =? 1)%Z then
    c <- of_option (Py.index [37; 36; 37]%Z frame) IndexError ;; Ret (mkGlyph c 7 false)
  else
    c <- of_option (Py.index [77; 87; 77]%Z frame) IndexError ;; Ret (mkGlyph c 7 true).

Definition sky_glyph (y ceiling : Z) : glyph :=
  let shade :=
    if (ceiling >? 0)%Z
    then fmax 0 (fmin 1 (1 - inject_Z y / inject_Z ceiling))
    else 0 in
  if Py.ltb (8 # 10) shade then mkGlyph 183 2 false
  else if Py.ltb (5 # 10) shade then mkGlyph 32 2 false
  else mkGlyph 32 2 false.

Section Rows.
Context {M : Math}.
Variables px py ray_angle_rad : Q.
Variable view_height : Z.

Definition floor_glyph (y floor : Z) : glyph :=
  let b := 1 - inject_Z (y - floor) / inject_Z (Z.max 1 (view_height - floor)) in
  let grid_x :=
    (Py.int (px * 4 + m_cos ray_angle_rad * inject_Z (y - floor) * 2) mod 4)%Z in
  let grid_y :=
    (Py.int (py * 4 + m_sin ray_angle_rad * inject_Z (y - floor) * 2) mod 4)%Z in
  if ((grid_x =? 0)%Z || (grid_y =? 0)%Z) && Py.ltb (3 # 10) b then mkGlyph 43 3 false
  else if Py.ltb b (25 # 100) then mkGlyph 35 3 false
  else if Py.ltb b (5 # 10) then mkGlyph 120 3 false
  else if Py.ltb b (75 # 100) then mkGlyph 45 3 false
  else mkGlyph 46 3 false.

(** [view_height / enemy_distance]; dividing by infinity gives 0. *)
Definition enemy_height (sp : sprite) : res Q :=
  match enemy_distance sp with
  | None => Ret 0
  | Some d =>
    if Qeq_bool d 0 then Raise ZeroDivisionError else Ret (inject_Z view_height / d)
  end.

(** The body of [for y in range(min(view_height, 1000))]: what is
    written at row [y] of the column, [None] when nothing is. *)
Definition draw_row (r : ray) (corrected_distance : Q) (ceiling floor : Z)
  (sp : sprite) (frame : Z) (y : Z) : res (option glyph) :=
  if (y <? ceiling)%Z then Ret (Some (sky_glyph y ceiling))
  else if (y >=? ceiling)%Z && (y <=? floor)%Z then
    if enemy_hit sp then
      h <- enemy_height sp ;;
      let enemy_ceiling := Py.int (inject_Z view_height / 2 - h / 2) in
      let enemy_floor := Py.int (inject_Z view_height / 2 + h / 2) in
      if (y >=? enemy_ceiling)%Z && (y <=? enemy_floor)%Z then
        c <- enemy_glyph (enemy_type sp) frame ;; Ret (Some c)
      else if hit_wall r then
        c <- wall_glyph r corrected_distance ;; Ret (Some c)
      else Ret None
    else
      c <- wall_glyph r corrected_distance ;; Ret (Some c)
  else Ret (Some (floor_glyph y floor)).

(** The rows [0 .. n-1] in order; the first exception ends the loop. *)
Fixpoint draw_rows (r : ray) (corrected_distance : Q) (ceiling floor : Z)
  (sp : sprite) (frame : Z) (y : Z) (n : nat) : res (list (option glyph)) :=
  match n with
  | O => Ret []
  | S n' =>
    c <- draw_row r corrected_distance ceiling floor sp frame y ;;
    cs <- draw_rows r corrected_distance ceiling floor sp frame (y + 1) n' ;;
    Ret (c :: cs)
  end.

End Rows.

(** One pass of [for x in range(min(width, 1000))]: the march, the
    projection, the sprite search and the rows of column [x]. *)
Definition draw_column {M : Math} (g : grid) (s : game) (frame width view_height x : Z)
  : res (list (option glyph)) :=
  let a := ray_angle (player_angle s) width x in
  rc <- column g (player_x s) (player_y s) (player_angle s) width view_height x ;;
  let r := fst (fst rc) in
  let corrected_distance := snd (fst rc) in
  let sp := find_enemy (player_x s) (player_y s) a corrected_distance (enemies s) no_sprite in
  draw_rows (player_x s) (player_y s) (m_radians a) view_height r corrected_distance
            (fst (snd rc)) (snd (snd rc)) sp frame 0
            (Z.to_nat (Z.min view_height 1000)).

(** ** Enemy animation clock *)

(** [(animation_timer, enemy_animation_frame)] after the update at the
    top of the loop. *)
Definition tick_animation (st : Z * Z) : Z * Z :=
  let timer := (fst st + 1)%Z in
  if (timer >=? 8)%Z then (0%Z, ((snd st + 1) mod 3)%Z) else (timer, snd st).

(** ** Radar *)

Definition radar_size (width height : Z) : Z :=
  Z.min 15 (Z.max 10 (Z.min (width / 6) (height / 4))).

Definition radar_x (width height : Z) : Z :=
  Z.max 0 (width - radar_size width height - 2).

Definition radar_y : Z := 2.

(** [width > radar_size + 20 and height > radar_size + 6] *)
Definition radar_shown (width height : Z) : bool :=
  (width >? radar_size width height + 20)%Z && (height >? radar_size width height + 6)%Z.

(** [int(player_x - visible_range/2 + x / scale)], with [scale = 1.0]
    and [visible_range = radar_size / scale]. *)
Definition radar_map_pos (p : Q) (rs x : Z) : Z :=
  Py.int (p - inject_Z rs / 1 / 2 + inject_Z x / 1).

Definition dir_char (player_angle : Q) : Z :=
  if fle 45 player_angle && Py.ltb player_angle 135 then 9654
  else if fle 135 player_angle && Py.ltb player_angle 225 then 9660
  else if fle 225 player_angle && Py.ltb player_angle 315 then 9664
  else 9650.

Definition radar_tile (ch : ascii) : glyph :=
  if Ascii.eqb ch "#" then mkGlyph 9632 1 false
  else if Ascii.eqb ch "L" then mkGlyph 9633 9 false
  else if Ascii.eqb ch "P" then mkGlyph 9688 10 false
  else if Ascii.eqb ch "C" then mkGlyph 9689 11 false
  else mkGlyph 183 6 false.

Definition enemy_mark (t : Z) : glyph :=
  if (t =? 0)%Z then mkGlyph 9675 4 true
  else if (t =? 1)%Z then mkGlyph 9671 7 true
  else mkGlyph 9670 7 true.

Definition stands_at (mx my : Z) (e : enemy) : bool :=
  e_alive e && (e_x e =? mx)%Z && (e_y e =? my)%Z.

(** The [for enemy in ENEMIES] loop of a radar cell: each living enemy
    standing in the cell overwrites what is there. *)
Fixpoint overlay_enemies (es : list enemy) (mx my : Z) (cur : glyph) : glyph :=
  match es with
  | [] => cur
  | e :: es' =>
    overlay_enemies es' mx my (if stands_at mx my e then enemy_mark (e_type e) else cur)
  end.

(** What ends up at radar cell [(x, y)]; [None] when the cell lies off
    the map or the lookup raised (the exception is swallowed). *)
Definition radar_cell (g : grid) (s : game) (rs x y : Z) : option glyph :=
  let mx := radar_map_pos (player_x s) rs x in
  let my := radar_map_pos (player_y s) rs y in
  if (0 <=? my)%Z && (my <? height g)%Z then
    match width g with
    | Ret w =>
      if (0 <=? mx)%Z && (mx <? w)%Z then
        if (mx =? Py.int (player_x s))%Z && (my =? Py.int (player_y s))%Z then
          Some (overlay_enemies (enemies s) mx my
                  (mkGlyph (dir_char (player_angle s)) 5 true))
        else
          match cell g my mx with
          | Ret ch => Some (overlay_enemies (enemies s) mx my (radar_tile ch))
          | _ => None
          end
      else None
    | _ => None
    end
  else None.

(** ** More vocabulary *)

(** The points scored for the dead of a list. *)
Fixpoint bounty (es : list enemy) : Z :=
  match es with
  | [] => 0
  | e :: es' => ((if e_alive e then 0 else 100 * (e_type e + 1)) + bounty es')%Z
  end.

(** A living enemy that [find_enemy] may pick. *)
Definition sprite_candidate {M : Math} (px py ray_angle cd : Q) (e : enemy) : Prop :=
  e_alive e = true /\ in_column px py ray_angle cd e = true.

(** A player standing exactly where the first enemy stands. *)
Definition on_first_enemy : game :=
  mkGame 5 3 0 100 50 0 false 0 true ENEMIES 0.

(** The whole view: [for x in range(min(width, 1000))], column by
    column; the first exception ends the frame. *)
Fixpoint draw_columns {M : Math} (g : grid) (s : game) (frame width view_height x : Z)
  (n : nat) : res (list (list (option glyph))) :=
  match n with
  | O => Ret []
  | S n' =>
    c <- draw_column g s frame width view_height x ;;
    cs <- draw_columns g s frame width view_height (x + 1) n' ;;
    Ret (c :: cs)
  end.

Definition draw_view {M : Math} (g : grid) (s : game) (frame width view_height : Z)
  : res (list (list (option glyph))) :=
  draw_columns g s frame width view_height 0 (Z.to_nat (Z.min width 1000)).

(** * Properties *)

(** ** Arithmetic of the Python primitives *)

Lemma ltb_lt (a b : Q) : Py.ltb a b = true <-> a < b.
Proof. unfold Py.ltb, Qlt. apply Z.ltb_lt. Qed.

Lemma ltb_ge (a b : Q) : Py.ltb a b = false <-> b <= a.
Proof. unfold Py.ltb, Qle. rewrite Z.ltb_ge. tauto. Qed.

Lemma int_floor (q : Q) : 0 <= q -> Py.int q = Qfloor q.
Proof.
  destruct q as [n d]. unfold Qle, Py.int, Qfloor. simpl. intro H.
  apply Z.quot_div_nonneg; lia.
Qed.

Lemma int_ceiling (q : Q) : q <= 0 -> Py.int q = Qceiling q.
Proof.
  destruct q as [n d]. unfold Qle, Py.int, Qceiling, Qfloor. simpl. intro H.
  replace n with (- - n)%Z at 1 by lia.
  rewrite Z.quot_opp_l by lia. f_equal.
  apply Z.quot_div_nonneg; lia.
Qed.

Lemma int_mono (a b : Q) : a <= b -> (Py.int a <= Py.int b)%Z.
Proof.
  intro H. destruct (Qlt_le_dec a 0) as [Ha | Ha].
  - destruct (Qlt_le_dec b 0) as [Hb | Hb].
    + rewrite !int_ceiling by lra. now apply Qceiling_resp_le.
    + rewrite int_ceiling by lra. rewrite (int_floor b) by lra.
      transitivity 0%Z.
      * change 0%Z with (Qceiling 0). apply Qceiling_resp_le. lra.
      * change 0%Z with (Qfloor 0). now apply Qfloor_resp_le.
  - rewrite !int_floor by lra. now apply Qfloor_resp_le.
Qed.

Lemma int_inject (z : Z) : Py.int (inject_Z z) = z.
Proof. unfold Py.int, inject_Z. simpl. apply Z.quot_1_r. Qed.

Lemma floor_unique (q : Q) (z : Z) :
  inject_Z z <= q -> q < inject_Z (z + 1) -> Qfloor q = z.
Proof.
  intros H1 H2.
  assert (A : (z <= Qfloor q)%Z).
  { rewrite <- (Qfloor_Z z). now apply Qfloor_resp_le. }
  assert (B : (Qfloor q < z + 1)%Z).
  { rewrite Zlt_Qlt. eapply Qle_lt_trans; [apply Qfloor_le | exact H2]. }
  lia.
Qed.

Lemma int_bounds (q : Q) : 0 <= q -> inject_Z (Py.int q) <= q < inject_Z (Py.int q + 1).
Proof.
  intro H. rewrite int_floor by exact H. split; [apply Qfloor_le | apply Qlt_floor].
Qed.

(** Below an integer-valued step of one, truncation drops by one. *)
Lemma int_drop (a b : Q) : 1 <= b -> a <= b - 1 -> (Py.int a <= Py.int b - 1)%Z.
Proof.
  intros Hb Hab.
  transitivity (Py.int (b - 1)); [now apply int_mono |].
  rewrite !int_floor by lra.
  rewrite (floor_unique (b - 1) (Qfloor b - 1)); [lia | |].
  - unfold Z.sub. rewrite inject_Z_plus, inject_Z_opp.
    change (inject_Z 1) with 1. pose proof (Qfloor_le b). lra.
  - replace (Qfloor b - 1 + 1)%Z with (Qfloor b) by lia.
    pose proof (Qlt_floor b) as H. rewrite inject_Z_plus in H.
    change (inject_Z 1) with 1 in H. lra.
Qed.

Lemma travelled_val (n : nat) : travelled n == inject_Z (Z.of_nat n) * step_size.
Proof.
  induction n as [| n IH].
  - reflexivity.
  - cbn [travelled]. rewrite IH, Nat2Z.inj_succ. unfold Z.succ.
    rewrite inject_Z_plus. change (inject_Z 1) with 1. lra.
Qed.

Lemma travelled_mono (i j : nat) : (i <= j)%nat -> travelled i <= travelled j.
Proof.
  induction 1 as [| j _ IH]; [lra |].
  cbn [travelled]. unfold step_size in *. lra.
Qed.

Lemma travelled_pos (n : nat) : (1 <= n)%nat -> step_size <= travelled n.
Proof.
  intro H. apply (travelled_mono 1 n) in H. simpl in H. lra.
Qed.

(** [cast_fuel] iterations take the distance to [depth] or beyond. *)
Lemma fuel_reaches (depth : Q) : depth <= travelled (cast_fuel depth).
Proof.
  rewrite travelled_val. unfold cast_fuel.
  set (c := Qceiling (depth / step_size)).
  assert (Hc : depth / step_size <= inject_Z c) by apply Qle_ceiling.
  assert (Hn : inject_Z c <= inject_Z (Z.of_nat (Z.to_nat c))).
  { rewrite <- Zle_Qle. lia. }
  assert (Hd : depth == (depth / step_size) * step_size).
  { unfold step_size. field. }
  rewrite Hd at 1. unfold step_size in *. nra.
Qed.

(** ** The grid of a rectangular map *)

Lemma get_some (s : string) (n : nat) :
  (n < String.length s)%nat -> exists c, String.get n s = Some c.
Proof.
  revert n. induction s as [| a s IH]; intros n H; simpl in H; [lia |].
  destruct n as [| n]; simpl; [now exists a | apply IH; lia].
Qed.

Lemma rect_width (g : grid) :
  rectangular g = true -> exists w, width g = Ret w /\ (0 <= w)%Z.
Proof.
  destruct g as [| r0 rs]; [discriminate |]. intros _.
  exists (Z.of_nat (String.length r0)). split; [reflexivity | lia].
Qed.

Lemma rect_cell (g : grid) (w y x : Z) :
  rectangular g = true -> width g = Ret w ->
  (0 <= y < height g)%Z -> (0 <= x < w)%Z ->
  exists ch, cell g y x = Ret ch.
Proof.
  intros Hr Hw Hy Hx. unfold cell, Py.index, Py.char_at.
  destruct (Z.ltb_spec y 0) as [? | _]; [lia |].
  destruct (Z.ltb_spec x 0) as [? | _]; [lia |].
  unfold height in Hy.
  destruct (nth_error g (Z.to_nat y)) as [r |] eqn:Er.
  2: { apply nth_error_None in Er. lia. }
  assert (Hlen : Z.of_nat (String.length r) = w).
  { destruct g as [| r0 rs]; [discriminate |].
    cbv [width Py.index] in Hw. simpl in Hw. injection Hw as <-.
    destruct (Z.to_nat y) as [| k] eqn:Ek; simpl in Er.
    - now injection Er as <-.
    - simpl in Hr. rewrite forallb_forall in Hr.
      apply nth_error_In in Er. apply Hr in Er.
      apply Nat.eqb_eq in Er. now rewrite Er. }
  simpl. destruct (get_some r (Z.to_nat x)) as [c Hc]; [lia |].
  rewrite Hc. now exists c.
Qed.

Lemma classify_total (g : grid) (mx my : Z) :
  rectangular g = true -> exists p, classify g mx my = Ret p.
Proof.
  intro Hr. unfold classify.
  destruct ((mx <? 0)%Z || (my <? 0)%Z) eqn:E1; [now eexists |].
  destruct (rect_width g Hr) as (w & Hw & _). rewrite Hw. simpl.
  destruct ((mx >=? w)%Z || (my >=? height g)%Z) eqn:E2; [now eexists |].
  apply orb_false_elim in E1 as [A B]. apply orb_false_elim in E2 as [C D].
  destruct (rect_cell g w my mx Hr Hw) as [ch Hc]; [lia | lia |].
  rewrite Hc. simpl. now eexists.
Qed.

(** In a rectangular map the neighbour loop never raises, and counts
    exactly the wall neighbours. *)
Lemma count_adjacent_val (g : grid) (mx my : Z) :
  rectangular g = true ->
  forall ds n adj,
    count_adjacent g mx my ds n adj =
    Ret ((n + Z.of_nat (List.length
            (filter (fun d => is_wall g (mx + fst d) (my + snd d)) ds)))%Z,
         adj ++ filter (fun d => is_wall g (mx + fst d) (my + snd d)) ds).
Proof.
  intro Hr. destruct (rect_width g Hr) as (w & Hw & _).
  induction ds as [| [dx dy] ds IH]; intros n adj.
  - simpl. now rewrite Z.add_0_r, app_nil_r.
  - cbn [count_adjacent filter fst snd].
    remember (is_wall g (mx + dx) (my + dy)) as b eqn:Eb. unfold is_wall in Eb.
    destruct ((0 <=? my + dy)%Z && (my + dy <? height g)%Z) eqn:Ey.
    2: { subst b. rewrite IH. reflexivity. }
    rewrite Hw in Eb |- *. cbn [bind].
    destruct ((0 <=? mx + dx)%Z && (mx + dx <? w)%Z) eqn:Ex.
    2: { subst b. rewrite IH. reflexivity. }
    apply andb_prop in Ey as [Y1 Y2]. apply andb_prop in Ex as [X1 X2].
    destruct (rect_cell g w (my + dy) (mx + dx) Hr Hw) as [ch Hc]; [lia | lia |].
    rewrite Hc in Eb |- *. cbn [bind andb] in Eb |- *. subst b.
    destruct (Ascii.eqb ch "#"); rewrite IH.
    + cbn [List.length]. rewrite <- app_assoc. simpl. f_equal. f_equal. lia.
    + reflexivity.
Qed.

(** ** The marcher, step by step *)

Section MarcherFacts.
Context {M : Math}.
Variable g : grid.
Variables px py rad : Q.
Hypothesis Hrect : rectangular g = true.

Lemma clear_ray_clean (n : nat) : clean_at n (clear_ray px py rad n).
Proof. repeat split. Qed.

(** One iteration from a state without a hit: the new state is decided
    by what lies at the next sample. *)
Lemma cast_step_clean (depth : Q) (k : nat) (r : ray) :
  clean_at k r ->
  match probe_at g px py rad (S k) with
  | Ret Outside =>
    cast_step g depth px py rad r = Ret (outside_ray depth px py rad (S k))
  | Ret (Solid ch) =>
    cast_step g depth px py rad r =
    Ret (struck g ch (sample_x px rad (S k)) (sample_y py rad (S k)) (travelled (S k)))
  | Ret (Clear ch) =>
    cast_step g depth px py rad r = Ret (clear_ray px py rad (S k))
  | _ => False
  end.
Proof.
  destruct r as [rx ry d hw hl hp hc b o adj].
  unfold clean_at. simpl. intros (-> & -> & -> & -> & -> & -> & -> & ->).
  unfold probe_at, classify, cast_step, outside_ray, clear_ray, struck.
  cbn [distance_to_wall hit_wall hit_lower_wall hit_pillar hit_corner boundary
       wall_orientation adjacent_walls].
  change (travelled k + step_size) with (travelled (S k)).
  fold (sample_x px rad (S k)). fold (sample_y py rad (S k)).
  set (mx := Py.int (sample_x px rad (S k))).
  set (my := Py.int (sample_y py rad (S k))).
  destruct ((mx <? 0)%Z || (my <? 0)%Z) eqn:E1; [reflexivity |].
  destruct (rect_width g Hrect) as (w & Hw & _). rewrite Hw. cbn [bind].
  destruct ((mx >=? w)%Z || (my >=? height g)%Z) eqn:E2; [reflexivity |].
  apply orb_false_elim in E1 as [A B]. apply orb_false_elim in E2 as [C D].
  destruct (rect_cell g w my mx Hrect Hw) as [ch Hc]; [lia | lia |].
  rewrite Hc. cbn [bind]. unfold solid.
  destruct (Ascii.eqb ch "#") eqn:T1.
  { cbn [orb]. rewrite T1. rewrite (count_adjacent_val g mx my Hrect). cbn [bind fst snd].
    unfold wall_neighbours. rewrite Z.add_0_l, Z.geb_leb. cbn [app].
    destruct (3 <=? _)%Z; destruct (on_edge _ _); reflexivity. }
  destruct (Ascii.eqb ch "L") eqn:T2.
  { cbn [orb]. rewrite T1, T2. destruct (on_edge _ _); reflexivity. }
  destruct (Ascii.eqb ch "P") eqn:T3.
  { cbn [orb]. rewrite T1, T2, T3. reflexivity. }
  destruct (Ascii.eqb ch "C") eqn:T4.
  { cbn [orb]. rewrite T1, T2, T3. reflexivity. }
  cbn [orb]. reflexivity.
Qed.

(** Once the loop condition is false the loop returns, whatever the
    budget. *)
Lemma cast_loop_done (depth : Q) (fuel : nat) (r : ray) :
  negb (hit_wall r) && Py.ltb (distance_to_wall r) depth = false ->
  cast_loop g depth px py rad fuel r = Ret r.
Proof. intro H. destruct fuel; simpl; now rewrite H. Qed.

(** The loop from a state without a hit: it returns, every sample
    before the last was in a transparent cell within range, and the last
    one ended the march. *)
Lemma cast_loop_from (depth : Q) (fuel : nat) :
  forall (k : nat) (r : ray),
    clean_at k r -> depth <= travelled (k + fuel) ->
    exists n r',
      cast_loop g depth px py rad fuel r = Ret r'
      /\ (k <= n)%nat
      /\ (forall j, (k <= j < n)%nat -> travelled j < depth)
      /\ (forall j, (k < j < n)%nat -> exists ch, probe_at g px py rad j = Ret (Clear ch))
      /\ ((n = k /\ r' = r /\ depth <= travelled k)
          \/ ((k < n)%nat /\ finished g depth px py rad n r')).
Proof.
  induction fuel as [| fuel IH]; intros k r Hc Hf.
  - rewrite Nat.add_0_r in Hf. exists k, r.
    rewrite cast_loop_done.
    + repeat split; try lia. left. auto.
    + destruct Hc as (Hd & Hh & _). rewrite Hh, Hd. simpl. now apply ltb_ge.
  - destruct (Py.ltb (travelled k) depth) eqn:El.
    2: { exists k, r. rewrite cast_loop_done.
         - repeat split; try lia. left. repeat split. now apply ltb_ge.
         - destruct Hc as (Hd & Hh & _). rewrite Hh, Hd. simpl. exact El. }
    pose proof (cast_step_clean depth k r Hc) as Hs.
    assert (Hun : cast_loop g depth px py rad (S fuel) r =
                  (r' <- cast_step g depth px py rad r ;;
                   cast_loop g depth px py rad fuel r')).
    { destruct Hc as (Hd & Hh & _). simpl. now rewrite Hh, Hd, El. }
    apply ltb_lt in El.
    destruct (probe_at g px py rad (S k)) as [[| ch | ch] | |] eqn:Ep; try contradiction.
    + exists (S k), (outside_ray depth px py rad (S k)).
      rewrite Hun, Hs. cbn [bind]. rewrite cast_loop_done by reflexivity.
      repeat split; try lia.
      * intros j Hj. now replace j with k by lia.
      * right. split; [lia |]. left. auto.
    + exists (S k), (struck g ch (sample_x px rad (S k)) (sample_y py rad (S k))
                           (travelled (S k))).
      rewrite Hun, Hs. cbn [bind]. rewrite cast_loop_done.
      2: { unfold struck. repeat destruct (Ascii.eqb _ _); reflexivity. }
      repeat split; try lia.
      * intros j Hj. now replace j with k by lia.
      * right. split; [lia |]. right. left. exists ch. auto.
    + destruct (IH (S k) (clear_ray px py rad (S k)) (clear_ray_clean (S k)))
        as (n & r' & Hrun & Hn & Hin & Hcl & Hend).
      { now replace (S k + fuel)%nat with (k + S fuel)%nat by lia. }
      exists n, r'. rewrite Hun, Hs. cbn [bind]. rewrite Hrun.
      split; [reflexivity |]. split; [lia |]. split; [| split].
      * intros j Hj. destruct (Nat.eq_dec j k) as [-> | Hne]; [exact El |].
        apply Hin. lia.
      * intros j Hj. destruct (Nat.eq_dec j (S k)) as [-> | Hne].
        -- exists ch. exact Ep.
        -- apply Hcl. lia.
      * right. destruct Hend as [(-> & -> & Hge) | (Hlt & Hfin)].
        -- split; [lia |]. right. right. exists ch. auto.
        -- split; [lia | exact Hfin].
Qed.

End MarcherFacts.

(** ** What [classify] says *)



(** ** The march of a whole ray *)

Section RayFacts.
Context {M : Math}.
Variable g : grid.
Variables px py rad : Q.
Hypothesis Hrect : rectangular g = true.

Lemma cast_ray_run (depth : Q) :
  exists n r,
    cast_ray g depth px py rad = Ret r
    /\ (forall j, (j < n)%nat -> travelled j < depth)
    /\ (forall j, (0 < j < n)%nat -> exists ch, probe_at g px py rad j = Ret (Clear ch))
    /\ ((n = 0%nat /\ r = ray_start px py /\ depth <= 0)
        \/ ((0 < n)%nat /\ finished g depth px py rad n r)).
Proof.
  destruct (cast_loop_from g px py rad Hrect depth (cast_fuel depth) 0 (ray_start px py))
    as (n & r & Hrun & _ & Hin & Hcl & Hend).
  - repeat split.
  - apply fuel_reaches.
  - exists n, r. split; [exact Hrun |]. split; [| split; [exact Hcl |]].
    + intros j Hj. apply Hin. lia.
    + destruct Hend as [(-> & -> & Hd) | H]; [left | right]; auto.
Qed.

(** The run is determined by the samples: two runs of the same ray that
    both went through [finished] or stopped in range agree on the number
    of iterations whenever the first one ended on a hit. *)
Lemma hit_index_stable (d1 d2 : Q) (n1 n2 : nat) (r1 r2 : ray) :
  d1 < d2 ->
  (forall j, (j < n1)%nat -> travelled j < d1) ->
  (forall j, (0 < j < n1)%nat -> exists ch, probe_at g px py rad j = Ret (Clear ch)) ->
  (0 < n1)%nat -> finished g d1 px py rad n1 r1 -> hit_wall r1 = true ->
  (forall j, (0 < j < n2)%nat -> exists ch, probe_at g px py rad j = Ret (Clear ch)) ->
  ((n2 = 0%nat /\ r2 = ray_start px py /\ d2 <= 0)
   \/ ((0 < n2)%nat /\ finished g d2 px py rad n2 r2)) ->
  n2 = n1.
Proof.
  intros Hd Hin1 Hcl1 Hpos1 Hfin1 Hhit Hcl2 Hend2.
  assert (Hnc : forall ch, probe_at g px py rad n1 <> Ret (Clear ch)).
  { intros ch Hp. destruct Hfin1 as [(Ho & _) | [(c & Hs & _) | (c & _ & -> & _)]];
      try congruence. discriminate Hhit. }
  destruct (Nat.lt_trichotomy n2 n1) as [Hlt | [Heq | Hgt]]; [exfalso | exact Heq | exfalso].
  - destruct Hend2 as [(-> & _ & Hle) | (Hpos2 & Hfin2)].
    + specialize (Hin1 0%nat Hpos1). simpl in Hin1. lra.
    + destruct (Hcl1 n2 (conj Hpos2 Hlt)) as (c & Hc).
      destruct Hfin2 as [(Ho & _) | [(c' & Hs & _) | (c' & _ & _ & Hge)]];
        try congruence.
      specialize (Hin1 n2 Hlt). lra.
  - destruct (Hcl2 n1 (conj Hpos1 Hgt)) as (c & Hc). exact (Hnc c Hc).
Qed.

End RayFacts.

(** ** The state after a hit *)


Lemma struck_hit (g : grid) (ch : ascii) (sx sy d : Q) :
  hit_wall (struck g ch sx sy d) = true /\ ray_x (struck g ch sx sy d) = sx
  /\ ray_y (struck g ch sx sy d) = sy.
Proof.
  unfold struck. repeat destruct (Ascii.eqb _ _); repeat split.
Qed.

Ltac side_contra :=
  intros; try reflexivity; exfalso;
  repeat match goal with H : _ \/ _ |- _ => destruct H end;
  try lra;
  match goal with H : ~ (_ \/ _) |- _ => apply H; ((left; lra) || (right; lra)) end.

Lemma wall_side_spec (tx ty : Q) :
  (near_side tx -> wall_side tx ty 0 = 0%Z)
  /\ (~ near_side tx -> near_side ty -> wall_side tx ty 0 = 1%Z)
  /\ (~ near_side tx -> ~ near_side ty -> wall_side tx ty 0 = 0%Z).
Proof.
  unfold wall_side, near_side.
  destruct (Py.ltb tx (2 # 100)) eqn:A; [rewrite ltb_lt in A | rewrite ltb_ge in A];
    [repeat apply conj; side_contra |].
  destruct (Py.ltb (98 # 100) tx) eqn:B; [rewrite ltb_lt in B | rewrite ltb_ge in B];
    [repeat apply conj; side_contra |].
  destruct (Py.ltb ty (2 # 100)) eqn:C; [rewrite ltb_lt in C | rewrite ltb_ge in C];
    [repeat apply conj; side_contra |].
  destruct (Py.ltb (98 # 100) ty) eqn:D; [rewrite ltb_lt in D | rewrite ltb_ge in D];
    repeat apply conj; side_contra.
Qed.

Lemma on_edge_spec (tx ty : Q) :
  on_edge tx ty = true <-> near_side tx \/ near_side ty.
Proof.
  unfold on_edge, near_side. rewrite !orb_true_iff, !ltb_lt. tauto.
Qed.

(** ** Claims about the ray marcher *)



(** C2, as stated, fails : the opening view's middle ray runs along
    [y = 2] and strikes the wall cell (4, 2) on its west face: the
    fractional [y] is 0, below the tolerance, yet the orientation is
    vertical (0), not horizontal. *)
Lemma C2_orientation_counterexample :
  exists r,
    cast_ray (M := Approx.math) MAP (inject_Z DEPTH) 2 2 (Approx.radians 0) = Ret r
    /\ hit_wall r = true
    /\ cell MAP (Py.int (ray_y r)) (Py.int (ray_x r)) = Ret "#"%char
    /\ ray_y r - inject_Z (Py.int (ray_y r)) < 2 # 100
    /\ wall_orientation r <> 1%Z.
Proof.
  eexists. split; [vm_compute; reflexivity |].
  split; [reflexivity |]. split; [vm_compute; reflexivity |].
  split; [vm_compute; reflexivity | discriminate].
Qed.

(** C2 (amended) : When a ray ends on an in-bounds tile, with [tx], [ty]
    the fractional position of the ray point in its cell: on a Wall or
    LowerWall the orientation is vertical (0) when [tx] is within the
    tolerance of a side, horizontal (1) when [ty] is and [tx] is not,
    and stays vertical when neither is; the boundary flag is set exactly
    when [tx] or [ty] is within the tolerance; on a Wall the corner flag
    is set exactly when at least 3 of the 4 orthogonal neighbours are
    in-bounds walls; a Pillar or CornerDecoration sets the boundary flag
    and leaves the orientation at its initial value. *)
Theorem C2_hit_classification {M : Math} (g : grid) (depth px py rad : Q) (r : ray)
  (ch : ascii) :
  rectangular g = true ->
  cast_ray g depth px py rad = Ret r ->
  hit_wall r = true ->
  classify g (Py.int (ray_x r)) (Py.int (ray_y r)) = Ret (Solid ch) ->
  let mx := Py.int (ray_x r) in
  let my := Py.int (ray_y r) in
  let tx := ray_x r - inject_Z mx in
  let ty := ray_y r - inject_Z my in
  ((ch = "#" \/ ch = "L")%char ->
     (near_side tx -> wall_orientation r = 0%Z)
     /\ (~ near_side tx -> near_side ty -> wall_orientation r = 1%Z)
     /\ (~ near_side tx -> ~ near_side ty -> wall_orientation r = 0%Z)
     /\ (boundary r = true <-> near_side tx \/ near_side ty))
  /\ (ch = "#"%char ->
        (hit_corner r = true <-> (3 <= List.length (wall_neighbours g mx my))%nat))
  /\ ((ch = "P" \/ ch = "C")%char -> boundary r = true /\ wall_orientation r = 0%Z).
Proof.
  intros Hrect Hrun Hhit Hcls.
  destruct (cast_ray_run g px py rad Hrect depth) as (n & r0 & Hrun0 & _ & _ & Hend).
  rewrite Hrun in Hrun0. injection Hrun0 as <-.
  destruct Hend as [(_ & -> & _) | (_ & [(Ho & ->) | [(c & Hs & ->) | (c & _ & -> & _)]])];
    try discriminate Hhit.
  - simpl in Hcls. unfold probe_at in Ho. congruence.
  - destruct (struck_hit g c (sample_x px rad n) (sample_y py rad n) (travelled n))
      as (_ & Hx & Hy).
    rewrite Hx, Hy in Hcls. unfold probe_at in Hs. rewrite Hs in Hcls.
    injection Hcls as ->. cbv zeta. rewrite Hx, Hy.
    set (sx := sample_x px rad n). set (sy := sample_y py rad n).
    pose proof (wall_side_spec (sx - inject_Z (Py.int sx)) (sy - inject_Z (Py.int sy)))
      as (W1 & W2 & W3).
    pose proof (on_edge_spec (sx - inject_Z (Py.int sx)) (sy - inject_Z (Py.int sy))) as E.
    split; [| split].
    + intros [-> | ->]; unfold struck; simpl; auto.
    + intros ->. unfold struck. simpl. rewrite Z.leb_le. lia.
    + intros [-> | ->]; unfold struck; simpl; auto.
Qed.

(** An instance of C2 (amended): the opening view's middle ray. *)
Lemma C2_hit_classification_witness :
  exists r,
    cast_ray (M := Approx.math) MAP (inject_Z DEPTH) 2 2 (Approx.radians 0) = Ret r
    /\ wall_orientation r = 0%Z.
Proof.
  assert (H : { r | cast_ray (M := Approx.math) MAP (inject_Z DEPTH) 2 2 (Approx.radians 0) = Ret r
                    /\ hit_wall r = true
                    /\ classify MAP (Py.int (ray_x r)) (Py.int (ray_y r)) = Ret (Solid "#")
                    /\ ray_x r - inject_Z (Py.int (ray_x r)) < 2 # 100 }).
  { eexists. split; [vm_compute; reflexivity |]. split; [reflexivity |].
    split; vm_compute; reflexivity. }
  destruct H as (r & Hrun & Hhit & Hcls & Hnear).
  exists r. split; [exact Hrun |].
  destruct (C2_hit_classification MAP _ _ _ _ r "#" eq_refl Hrun Hhit Hcls) as (Ho & _).
  destruct (Ho (or_introl eq_refl)) as (Hv & _).
  apply Hv. left. exact Hnear.
Defined.

(** C6, as stated, fails : on the one-cell open grid a ray from the
    middle of the cell leaves the map after half a unit; the result is
    a hit (not out of range) whose distance is the depth limit itself:
    5 with limit 5, 16 with limit 16. *)
Lemma C6_deeper_range_counterexample :
  exists r1 r2,
    cast_ray (M := Approx.math) ["."%string] 5 (5 # 10) (5 # 10) (Approx.radians 0) = Ret r1
    /\ cast_ray (M := Approx.math) ["."%string] 16 (5 # 10) (5 # 10) (Approx.radians 0) = Ret r2
    /\ 5 < 16
    /\ hit_wall r1 = true
    /\ distance_to_wall r1 = 5 /\ distance_to_wall r2 = 16
    /\ r2 <> r1.
Proof.
  eexists. eexists. split; [vm_compute; reflexivity |].
  split; [vm_compute; reflexivity |].
  split; [reflexivity |]. split; [reflexivity |].
  split; [reflexivity |]. split; [reflexivity |].
  intro H. apply (f_equal distance_to_wall) in H. discriminate H.
Qed.

(** C6 (amended) : If the march with limit [d1] ends on a hit, the
    march with a larger limit [d2] ends on the same sample with the same
    kind, orientation and boundary flags; the whole result is equal when
    the hit cell is inside the grid, and when the ray left the grid the
    two distances are the two limits [d1] and [d2]. *)
Theorem C6_deeper_range {M : Math} (g : grid) (px py rad d1 d2 : Q) (r1 : ray) :
  d1 < d2 ->
  rectangular g = true ->
  cast_ray g d1 px py rad = Ret r1 ->
  hit_wall r1 = true ->
  exists r2,
    cast_ray g d2 px py rad = Ret r2
    /\ hit_wall r2 = true
    /\ ray_x r2 = ray_x r1 /\ ray_y r2 = ray_y r1
    /\ hit_lower_wall r2 = hit_lower_wall r1 /\ hit_pillar r2 = hit_pillar r1
    /\ hit_corner r2 = hit_corner r1 /\ boundary r2 = boundary r1
    /\ wall_orientation r2 = wall_orientation r1
    /\ (classify g (Py.int (ray_x r1)) (Py.int (ray_y r1)) = Ret Outside ->
        distance_to_wall r1 = d1 /\ distance_to_wall r2 = d2)
    /\ (classify g (Py.int (ray_x r1)) (Py.int (ray_y r1)) <> Ret Outside ->
        r2 = r1).
Proof.
  intros Hd Hrect Hrun1 Hhit.
  destruct (cast_ray_run g px py rad Hrect d1) as (n1 & r1' & Hr1 & Hin1 & Hcl1 & Hend1).
  rewrite Hrun1 in Hr1. injection Hr1 as <-.
  destruct Hend1 as [(_ & -> & _) | (Hpos1 & Hfin1)]; [discriminate Hhit |].
  destruct (cast_ray_run g px py rad Hrect d2) as (n2 & r2 & Hr2 & Hin2 & Hcl2 & Hend2).
  assert (Hn : n2 = n1)
    by (eapply (hit_index_stable g px py rad d1 d2); eauto).
  subst n2. exists r2. split; [exact Hr2 |].
  destruct Hend2 as [(-> & _) | (_ & Hfin2)]; [lia |].
  destruct Hfin1 as [(Ho1 & ->) | [(c1 & Hs1 & ->) | (c1 & _ & -> & _)]];
    try discriminate Hhit;
    destruct Hfin2 as [(Ho2 & ->) | [(c2 & Hs2 & ->) | (c2 & Hc2 & -> & _)]];
    try congruence.
  - cbn [outside_ray hit_wall ray_x ray_y hit_lower_wall hit_pillar hit_corner boundary
         wall_orientation distance_to_wall].
    repeat apply conj; auto. intro Hne. exfalso. apply Hne. exact Ho1.
  - assert (c2 = c1) by congruence. subst c2.
    destruct (struck_hit g c1 (sample_x px rad n1) (sample_y py rad n1) (travelled n1))
      as (_ & Hx & Hy).
    rewrite Hx, Hy. repeat apply conj; auto.
    unfold probe_at in Hs1. intro Ho. congruence.
Qed.

(** An instance of C6 (amended): a ray from (3.5, 2.5) toward the wall
    cell (4, 2), with limits 5 and 16. *)
Lemma C6_deeper_range_witness :
  exists r1 r2,
    cast_ray (M := Approx.math) MAP 5 (35 # 10) (25 # 10) (Approx.radians 0) = Ret r1
    /\ cast_ray (M := Approx.math) MAP 16 (35 # 10) (25 # 10) (Approx.radians 0) = Ret r2
    /\ hit_wall r2 = true /\ wall_orientation r2 = wall_orientation r1.
Proof.
  assert (H : { r | cast_ray (M := Approx.math) MAP 5 (35 # 10) (25 # 10) (Approx.radians 0)
                    = Ret r /\ hit_wall r = true }).
  { eexists. split; [vm_compute; reflexivity | reflexivity]. }
  destruct H as (r1 & Hrun & Hhit).
  assert (Hd : 5 < 16) by reflexivity.
  destruct (C6_deeper_range MAP _ _ _ 5 16 r1 Hd eq_refl Hrun Hhit)
    as (r2 & H2 & Hh & _ & _ & _ & _ & _ & _ & Ho & _).
  exists r1, r2. auto.
Defined.

(** ** Movement *)

Lemma can_enter_spec (g : grid) (nx ny : Q) :
  rectangular g = true ->
  exists b, can_enter g nx ny = Ret b /\ (b = true <-> enterable g nx ny).
Proof.
  intro Hr. unfold can_enter, enterable.
  destruct (rect_width g Hr) as (w & Hw & _).
  destruct ((0 <=? Py.int ny)%Z && (Py.int ny <? height g)%Z) eqn:Ey.
  2: { exists false. split; [reflexivity |]. split; [discriminate |].
       intros (w' & ch & _ & Hy & _). apply andb_false_iff in Ey as [E | E];
         [apply Z.leb_gt in E | apply Z.ltb_ge in E]; lia. }
  rewrite Hw. cbn [bind].
  destruct ((0 <=? Py.int nx)%Z && (Py.int nx <? w)%Z) eqn:Ex.
  2: { exists false. split; [reflexivity |]. split; [discriminate |].
       intros (w' & ch & Hw' & _ & Hx & _). injection Hw' as <-.
       apply andb_false_iff in Ex as [E | E];
         [apply Z.leb_gt in E | apply Z.ltb_ge in E]; lia. }
  apply andb_prop in Ey as [Y1 Y2]. apply andb_prop in Ex as [X1 X2].
  apply Z.leb_le in Y1, X1. apply Z.ltb_lt in Y2, X2.
  destruct (rect_cell g w (Py.int ny) (Py.int nx) Hr Hw) as [ch Hc]; [lia | lia |].
  rewrite Hc. cbn [bind]. eexists. split; [reflexivity |].
  fold (passable ch). split.
  - intro Hp. exists w, ch. repeat split; auto; lia.
  - intros (w' & ch' & _ & _ & _ & Hc' & Hp). congruence.
Qed.

Lemma try_move_spec (g : grid) (s : game) (nx ny : Q) :
  rectangular g = true ->
  exists s', try_move g s nx ny = Ret s'
    /\ (enterable g nx ny -> s' = set_position s nx ny)
    /\ (~ enterable g nx ny -> s' = s).
Proof.
  intro Hr. unfold try_move.
  destruct (can_enter_spec g nx ny Hr) as (b & Hb & Hiff).
  rewrite Hb. cbn [bind]. eexists. split; [reflexivity |].
  destruct b; split; intro H; try reflexivity.
  - exfalso. apply H. now apply Hiff.
  - apply Hiff in H. discriminate H.
Qed.





(** ** The door *)



(** A ray through the door: from (8.5, 4.5) facing east with a range
    of one unit, the last sample lies in the door cell and no hit is
    registered. *)
Example ray_through_door :
  exists r,
    cast_ray (M := Approx.math) MAP 1 (85 # 10) (45 # 10) (Approx.radians 0) = Ret r
    /\ cell MAP (Py.int (ray_y r)) (Py.int (ray_x r)) = Ret "D"%char
    /\ hit_wall r = false.
Proof.
  eexists. split; [vm_compute; reflexivity |].
  split; [vm_compute; reflexivity | reflexivity].
Qed.

(** ** Projected spans *)

Lemma column_span_val (vh : Z) (lower : bool) (d : Q) :
  0 < d ->
  column_span vh lower d =
  Ret (Z.max 0 (Py.int (inject_Z vh / 2
                        - (if lower then (inject_Z vh / d) * (5 # 10) else inject_Z vh / d))),
       Z.min (vh - 1) (Py.int (inject_Z vh / 2
                        + (if lower then (inject_Z vh / d) * (5 # 10) else inject_Z vh / d)))).
Proof.
  intro Hd. unfold column_span.
  destruct (Qeq_bool d 0) eqn:E.
  - apply Qeq_bool_iff in E. lra.
  - destruct lower; reflexivity.
Qed.

Lemma quotient_bounds (h d V a : Q) :
  0 < d -> h * d == V ->
  (a * d <= V -> a <= h) /\ (V <= a * d -> h <= a).
Proof.
  intros Hd Hh. split; intro H.
  - destruct (Qlt_le_dec h a) as [L | L]; [exfalso | exact L].
    assert (0 < (a - h) * d) by (apply Qmult_lt_0_compat; lra). lra.
  - destruct (Qlt_le_dec a h) as [L | L]; [exfalso | exact L].
    assert (0 < (h - a) * d) by (apply Qmult_lt_0_compat; lra). lra.
Qed.

(** C5, as stated, fails : standing at (7.5, 1.5) and facing the lower
    wall at (7, 2), the middle column of an 80 by 24 terminal meets the
    lower wall at corrected distance 0.5; its rows are 0..21, and a
    full wall at the same corrected distance also gets rows 0..21: both
    spans are clamped to 21, neither is smaller. *)
Lemma C5_adjacent_counterexample :
  exists r cd lo full,
    column (M := Approx.math) MAP (75 # 10) (15 # 10) 90 80 22 40 = Ret (r, cd, lo)
    /\ hit_lower_wall r = true
    /\ cd == 5 # 10
    /\ column_span 22 false cd = Ret full
    /\ span_rows lo = 21%Z /\ span_rows full = 21%Z
    /\ ~ (span_rows lo < span_rows full)%Z.
Proof.
  eexists. eexists. eexists. eexists.
  split; [vm_compute; reflexivity |]. split; [reflexivity |].
  split; [reflexivity |]. split; [vm_compute; reflexivity |].
  split; [reflexivity |]. split; [reflexivity |]. vm_compute. discriminate.
Qed.

(** C5 (amended) : At the same positive corrected distance [d] and view
    height [vh >= 1], the clamped span of a LowerWall is never larger
    than that of a full wall; it is strictly smaller whenever
    [2 <= vh / d <= vh - 2]; and for a player adjacent to the wall
    ([d <= 1]) both spans are clamped to [vh - 1] and are equal. *)
Theorem C5_lower_wall_span (vh : Z) (d : Q) :
  (1 <= vh)%Z -> 0 < d ->
  exists lo full,
    column_span vh true d = Ret lo
    /\ column_span vh false d = Ret full
    /\ (span_rows lo <= span_rows full)%Z
    /\ (2 * d <= inject_Z vh -> inject_Z vh <= (inject_Z vh - 2) * d ->
        (span_rows lo < span_rows full)%Z)
    /\ (d <= 1 -> span_rows lo = (vh - 1)%Z /\ span_rows full = (vh - 1)%Z).
Proof.
  intros Hvh Hd.
  rewrite !column_span_val by exact Hd.
  eexists. eexists. split; [reflexivity |]. split; [reflexivity |].
  unfold span_rows. cbn [fst snd].
  set (V := inject_Z vh). set (h := V / d).
  assert (HV : 1 <= V) by (unfold V; change 1 with (inject_Z 1); rewrite <- Zle_Qle; exact Hvh).
  assert (Hh : h * d == V) by (unfold h; field; lra).
  assert (Hhalf : V / 2 == V * (1 # 2)) by reflexivity.
  assert (Hh0 : 0 <= h) by (apply (quotient_bounds h d V 0 Hd Hh); lra).
  assert (Mc : (Py.int (V / 2 - h) <= Py.int (V / 2 - h * (5 # 10)))%Z)
    by (apply int_mono; lra).
  assert (Mf : (Py.int (V / 2 + h * (5 # 10)) <= Py.int (V / 2 + h))%Z)
    by (apply int_mono; lra).
  split; [lia |]. split.
  - intros H2 Hup.
    assert (Hlo : 2 <= h) by (apply (quotient_bounds h d V 2 Hd Hh); lra).
    assert (Hhi : h <= V - 2) by (apply (quotient_bounds h d V (V - 2) Hd Hh); lra).
    assert (D : (Py.int (V / 2 - h) <= Py.int (V / 2 - h * (5 # 10)) - 1)%Z)
      by (apply int_drop; lra).
    assert (P : (1 <= Py.int (V / 2 - h * (5 # 10)))%Z).
    { rewrite <- (int_inject 1). apply int_mono. change (inject_Z 1) with 1. lra. }
    lia.
  - intro H1.
    assert (Hge : V <= h).
    { apply (quotient_bounds h d V V Hd Hh).
      assert (0 <= (1 - d) * V) by (apply Qmult_le_0_compat; lra). lra. }
    assert (C1 : (Py.int (V / 2 - h * (5 # 10)) <= 0)%Z).
    { rewrite <- (int_inject 0). apply int_mono. change (inject_Z 0) with 0. lra. }
    assert (C2 : (Py.int (V / 2 - h) <= 0)%Z) by lia.
    assert (F1 : (vh <= Py.int (V / 2 + h * (5 # 10)))%Z).
    { rewrite <- (int_inject vh) at 1. apply int_mono. fold V. lra. }
    assert (F2 : (vh <= Py.int (V / 2 + h))%Z) by lia.
    lia.
Qed.

(** An instance of C5 (amended): 22 rows, corrected distance 4. *)
Lemma C5_lower_wall_span_witness :
  exists lo full,
    column_span 22 true 4 = Ret lo
    /\ column_span 22 false 4 = Ret full
    /\ (span_rows lo < span_rows full)%Z.
Proof.
  assert (H1 : (1 <= 22)%Z) by lia.
  assert (H2 : 0 < 4) by reflexivity.
  destruct (C5_lower_wall_span 22 4 H1 H2) as (lo & full & E1 & E2 & _ & Hlt & _).
  exists lo, full. split; [exact E1 |]. split; [exact E2 |].
  apply Hlt; vm_compute; discriminate.
Defined.

(** ** Fisheye correction and the divisor of the projection *)

Lemma struck_distance (g : grid) (ch : ascii) (sx sy d : Q) :
  distance_to_wall (struck g ch sx sy d) = d.
Proof. unfold struck. repeat destruct (Ascii.eqb _ _); reflexivity. Qed.

(** With a depth limit of at least one step, the marcher returns a
    distance of at least one step. *)
Lemma cast_ray_far_enough {M : Math} (g : grid) (depth px py rad : Q) :
  rectangular g = true -> step_size <= depth ->
  exists r, cast_ray g depth px py rad = Ret r /\ step_size <= distance_to_wall r.
Proof.
  intros Hrect Hd.
  destruct (cast_ray_run g px py rad Hrect depth) as (n & r & Hrun & _ & _ & Hend).
  exists r. split; [exact Hrun |].
  destruct Hend as [(_ & _ & H0) | (Hpos & [(_ & ->) | [(c & _ & ->) | (c & _ & -> & _)]])].
  - unfold step_size in Hd. lra.
  - exact Hd.
  - rewrite struck_distance. now apply travelled_pos.
  - now apply travelled_pos.
Qed.

(** The angle of a visited column lies in the half-open field of view. *)
Lemma corrected_angle_range (player_angle : Q) (width x : Z) :
  (0 <= x < Z.min width 1000)%Z ->
  - (inject_Z FOV / 2) <= corrected_angle player_angle width x
  /\ corrected_angle player_angle width x < inject_Z FOV / 2.
Proof.
  intro Hx. unfold corrected_angle, ray_angle.
  set (m := inject_Z (Z.min width 1000)).
  set (t := inject_Z x / m).
  assert (Hm : 0 < m) by (unfold m; change 0 with (inject_Z 0); rewrite <- Zlt_Qlt; lia).
  assert (Ht : t * m == inject_Z x) by (unfold t; field; lra).
  assert (Hx0 : 0 <= inject_Z x) by (change 0 with (inject_Z 0); rewrite <- Zle_Qle; lia).
  assert (Hxm : inject_Z x < m) by (unfold m; rewrite <- Zlt_Qlt; lia).
  assert (T0 : 0 <= t) by (apply (quotient_bounds t m (inject_Z x) 0 Hm Ht); lra).
  assert (T1 : t < 1).
  { destruct (Qlt_le_dec t 1) as [L | L]; [exact L | exfalso].
    assert (0 <= (t - 1) * m) by (apply Qmult_le_0_compat; lra). lra. }
  assert (HF : inject_Z FOV / 2 == 35) by reflexivity.
  assert (HF' : inject_Z FOV == 70) by reflexivity.
  split.
  - rewrite HF, HF'. lra.
  - rewrite HF, HF'. lra.
Qed.

(** The computable cosine is positive on the open right half-plane. *)
Lemma approx_cos_positive (a : Q) :
  -90 < a -> a < 90 -> 0 < dcos (M := Approx.math) a.
Proof.
  intros Hlo Hhi. unfold dcos. cbn [m_cos m_radians Approx.math].
  set (b := Approx.degrees (Approx.radians a)).
  assert (Hb : b == a).
  { unfold b, Approx.degrees, Approx.radians. rewrite !Qred_correct.
    unfold Approx.pi. field. }
  unfold Approx.cos_deg, Approx.sin_deg. rewrite Qred_correct.
  set (t := Py.fmod (b + 90) 360).
  assert (Ht : t == b + 90).
  { unfold t, Py.fmod. rewrite (floor_unique ((b + 90) / 360) 0).
    - change (inject_Z 0) with 0. lra.
    - change (inject_Z 0) with 0. apply Qle_shift_div_l; lra.
    - change (inject_Z (0 + 1)) with 1. apply Qlt_shift_div_r; lra. }
  destruct (Py.ltb 180 t) eqn:E.
  - apply ltb_lt in E. lra.
  - unfold Approx.half_wave.
    assert (Hn : 0 < 4 * t * (180 - t)).
    { assert (0 < t * (180 - t)) by (apply Qmult_lt_0_compat; lra). lra. }
    assert (Hden : 0 < 40500 - t * (180 - t)).
    { assert (S : 0 <= (180 - t) * (180 - t)) by (apply Qmult_le_0_compat; lra).
      lra. }
    apply Qlt_shift_div_l; [exact Hden | lra].
Qed.

(** C8, as stated, fails : for the leftmost column, [x = 0], the ray
    angle is the view angle minus exactly FOV/2: the difference is 35
    degrees in absolute value, not strictly less than 35. *)
Lemma C8_left_edge_counterexample :
  (0 <= 0 < 80)%Z
  /\ corrected_angle 0 80 0 == - (35)
  /\ Py.abs (corrected_angle 0 80 0) == inject_Z FOV / 2
  /\ ~ Py.abs (corrected_angle 0 80 0) < inject_Z FOV / 2.
Proof.
  split; [lia |]. split; [reflexivity |]. split; [reflexivity |].
  vm_compute. discriminate.
Qed.

(** C8 (amended) : For every column [x] the renderer visits,
    [0 <= x < min(width, 1000)], the ray angle differs from the view
    angle by at least -FOV/2 and by strictly less than FOV/2 (the left
    bound is attained at [x = 0]); the cosine being positive strictly
    inside a quarter turn, the fisheye correction is strictly positive;
    the marcher returns a distance of at least one [step_size]; so the
    corrected distance is strictly positive and the projection returns
    without a division error. *)
Theorem C8_positive_divisor {M : Math} (g : grid) (px py pa : Q) (width x vh : Z) :
  rectangular g = true ->
  (forall a, -90 < a -> a < 90 -> 0 < dcos a) ->
  (0 <= x < Z.min width 1000)%Z ->
  - (inject_Z FOV / 2) <= ray_angle pa width x - pa
  /\ ray_angle pa width x - pa < inject_Z FOV / 2
  /\ 0 < fisheye_correction pa width x
  /\ exists r cf,
       cast_ray g (inject_Z DEPTH) px py (m_radians (ray_angle pa width x)) = Ret r
       /\ step_size <= distance_to_wall r
       /\ 0 < distance_to_wall r * fisheye_correction pa width x
       /\ column g px py pa width vh x
          = Ret (r, distance_to_wall r * fisheye_correction pa width x, cf).
Proof.
  intros Hrect Hcos Hx.
  destruct (corrected_angle_range pa width x Hx) as (Alo & Ahi).
  assert (HF : inject_Z FOV / 2 == 35) by reflexivity.
  assert (Hfish : 0 < fisheye_correction pa width x).
  { unfold fisheye_correction. apply (Hcos (corrected_angle pa width x)); lra. }
  split; [exact Alo |]. split; [exact Ahi |]. split; [exact Hfish |].
  destruct (cast_ray_far_enough g (inject_Z DEPTH) px py
              (m_radians (ray_angle pa width x)) Hrect) as (r & Hrun & Hfar).
  { unfold step_size. vm_compute. discriminate. }
  assert (Hpos : 0 < distance_to_wall r * fisheye_correction pa width x).
  { apply Qmult_lt_0_compat; [unfold step_size in Hfar; lra | exact Hfish]. }
  exists r. eexists. split; [exact Hrun |]. split; [exact Hfar |].
  split; [exact Hpos |].
  unfold column. rewrite Hrun. cbn [bind].
  rewrite (column_span_val vh _ _ Hpos). cbn [bind]. reflexivity.
Qed.

(** An instance of C8 (amended): the leftmost column of the opening
    view on an 80 by 24 terminal. *)
Lemma C8_positive_divisor_witness :
  rectangular MAP = true
  /\ (0 <= 0 < Z.min 80 1000)%Z
  /\ 0 < fisheye_correction (M := Approx.math) 0 80 0.
Proof.
  assert (Hx : (0 <= 0 < Z.min 80 1000)%Z) by (vm_compute; split; congruence).
  split; [reflexivity |]. split; [exact Hx |].
  destruct (C8_positive_divisor (M := Approx.math) MAP 2 2 0 80 0 22
              eq_refl approx_cos_positive Hx) as (_ & _ & H & _).
  exact H.
Defined.

(** ** Combat *)

Section CombatFacts.
Context {M : Math}.
Variable rand : nat -> Q.
Variables px py pa : Q.

Lemma all_missed_nil (k : nat) : all_missed rand px py k [].
Proof. intros [| j] t H; discriminate H. Qed.

Lemma all_missed_cons (k : nat) (t : enemy) (ts : list enemy) :
  hit_chance px py t <= rand k ->
  all_missed rand px py (S k) ts ->
  all_missed rand px py k (t :: ts).
Proof.
  intros Ht Hts [| j] u H; simpl in H.
  - injection H as <-. now rewrite Nat.add_0_r.
  - replace (k + S j)%nat with (S k + j)%nat by lia. now apply Hts.
Qed.

(** The scan either goes through the whole list without a kill, or
    stops at the first target that wins its draw. *)
Lemma scan_spec (es : list enemy) :
  forall (k : nat) (sc : Z),
    (all_missed rand px py k (targets px py pa es)
     /\ scan rand px py pa es k sc
        = (es, (k + List.length (targets px py pa es))%nat, sc))
    \/ (exists pre e post,
          es = pre ++ e :: post
          /\ e_alive e = true /\ in_sights px py pa e = true
          /\ all_missed rand px py k (targets px py pa pre)
          /\ rand (k + List.length (targets px py pa pre))%nat < hit_chance px py e
          /\ scan rand px py pa es k sc
             = (pre ++ slain e :: post,
                S (k + List.length (targets px py pa pre)),
                (sc + 100 * (e_type e + 1))%Z)).
Proof.
  induction es as [| e es IH]; intros k sc.
  - left. split; [apply all_missed_nil |]. simpl. now rewrite Nat.add_0_r.
  - cbn [scan targets filter]. fold (targets px py pa es).
    destruct (e_alive e && in_sights px py pa e) eqn:Ev.
    + destruct (Py.ltb (rand k) (hit_chance px py e)) eqn:Eh.
      * right. exists [], e, es. apply andb_prop in Ev as [Ea Ei].
        apply ltb_lt in Eh. cbn [targets filter List.length app].
        rewrite Nat.add_0_r. repeat split; auto. apply all_missed_nil.
      * apply ltb_ge in Eh.
        destruct (IH (S k) sc) as [(Hm & Hs) | (pre & v & post & -> & Ha & Hi & Hm & Hd & Hs)];
          rewrite Hs.
        -- left. split; [now apply all_missed_cons |].
           cbn [List.length]. do 2 f_equal. lia.
        -- right. exists (e :: pre), v, post.
           cbn [targets filter]. rewrite Ev. fold (targets px py pa pre).
           cbn [List.length].
           replace (k + S (List.length (targets px py pa pre)))%nat
             with (S k + List.length (targets px py pa pre))%nat by lia.
           repeat split; auto. now apply all_missed_cons.
    + destruct (IH k sc) as [(Hm & Hs) | (pre & v & post & -> & Ha & Hi & Hm & Hd & Hs)];
        rewrite Hs.
      * left. split; [exact Hm | reflexivity].
      * right. exists (e :: pre), v, post.
        cbn [targets filter]. rewrite Ev. fold (targets px py pa pre).
        repeat split; auto.
Qed.

Lemma same_or_died_refl (e : enemy) : same_or_died e e.
Proof. repeat split; auto. Qed.

Lemma same_or_died_slain (e : enemy) : same_or_died e (slain e).
Proof. repeat split; simpl; auto. discriminate. Qed.

Lemma Forall2_same_refl (es : list enemy) : Forall2 same_or_died es es.
Proof. induction es; constructor; auto using same_or_died_refl. Qed.

Lemma scan_monotone (es : list enemy) (k : nat) (sc : Z) :
  Forall2 same_or_died es (fst (fst (scan rand px py pa es k sc))).
Proof.
  destruct (scan_spec es k sc) as [(_ & ->) | (pre & e & post & -> & _ & _ & _ & _ & ->)];
    cbn [fst].
  - apply Forall2_same_refl.
  - apply Forall2_app; [apply Forall2_same_refl |].
    constructor; [apply same_or_died_slain | apply Forall2_same_refl].
Qed.

End CombatFacts.


Lemma shoot_val {M : Math} (rand : nat -> Q) (s : game) :
  (0 < ammo s)%Z ->
  shoot rand s =
  let r := scan rand (player_x s) (player_y s) (player_angle s)
                (enemies s) (draws s) (score s) in
  mkGame (player_x s) (player_y s) (player_angle s) (player_health s)
         (ammo s - 1) (snd r) true 0 (running s) (fst (fst r)) (snd (fst r)).
Proof.
  intro H. unfold shoot. destruct (Z.gtb_spec (ammo s) 0) as [_ | ?]; [| lia].
  destruct (scan _ _ _ _ _ _ _) as [[es k] sc]. reflexivity.
Qed.



(** The spec's scenario: a class-0 enemy two units straight ahead has
    hit chance 0.9. *)
Example hit_chance_two_ahead :
  in_sights (M := Approx.math) 2 2 0 (mkEnemy 4 2 true 0) = true
  /\ hit_chance (M := Approx.math) 2 2 (mkEnemy 4 2 true 0) == 9 # 10.
Proof. split; vm_compute; reflexivity. Qed.

(** ** The game loop *)

Lemma try_move_cases (g : grid) (s s' : game) (nx ny : Q) :
  try_move g s nx ny = Ret s' -> s' = s \/ s' = set_position s nx ny.
Proof.
  unfold try_move. destruct (can_enter g nx ny) as [[|] | |]; cbn [bind];
    intro H; try discriminate H; injection H as <-; auto.
Qed.

Section LoopFacts.
Context {M : Math}.
Variable rand : nat -> Q.
Variable g : grid.

(** Every key but the space bar leaves ammunition, score, enemies and
    the draw count alone. *)
Lemma handle_key_cases (key : Z) (s s' : game) :
  handle_key rand g key s = Ret s' ->
  (ammo s' = ammo s /\ score s' = score s /\ enemies s' = enemies s
   /\ draws s' = draws s)
  \/ (key = ord_space /\ s' = shoot rand s).
Proof.
  unfold handle_key.
  destruct (key =? -1)%Z; [intros [= <-]; auto |].
  destruct (key =? ord_x)%Z; [intros [= <-]; auto |].
  destruct (key =? ord_w)%Z;
    [intro H; apply try_move_cases in H as [-> | ->]; auto |].
  destruct (key =? ord_s)%Z;
    [intro H; apply try_move_cases in H as [-> | ->]; auto |].
  destruct (key =? ord_a)%Z;
    [intro H; apply try_move_cases in H as [-> | ->]; auto |].
  destruct (key =? ord_d)%Z;
    [intro H; apply try_move_cases in H as [-> | ->]; auto |].
  destruct (key =? ord_q)%Z; [intros [= <-]; auto |].
  destruct (key =? ord_e)%Z; [intros [= <-]; auto |].
  destruct (Z.eqb_spec key ord_space) as [-> | _]; intros [= <-]; auto.
Qed.

Lemma handle_key_total (key : Z) (s : game) :
  rectangular g = true -> exists s', handle_key rand g key s = Ret s'.
Proof.
  intro Hr. unfold handle_key.
  repeat match goal with
         | |- context [if ?b then _ else _] => destruct b
         end;
    try (eexists; reflexivity);
    match goal with
    | |- exists s', try_move ?g ?s ?x ?y = _ =>
      destruct (try_move_spec g s x y Hr) as (s' & H & _); exists s'; exact H
    end.
Qed.

Lemma shoot_empty (s : game) : (ammo s <= 0)%Z -> shoot rand s = s.
Proof.
  intro H. unfold shoot. destruct (Z.gtb_spec (ammo s) 0); [lia | reflexivity].
Qed.

Lemma shoot_enemies (s : game) :
  Forall2 same_or_died (enemies s) (enemies (shoot rand s)).
Proof.
  destruct (Z_lt_le_dec 0 (ammo s)) as [H | H].
  - rewrite (shoot_val rand s H). cbv zeta. cbn [enemies]. apply scan_monotone.
  - rewrite shoot_empty by exact H. apply Forall2_same_refl.
Qed.

Lemma shoot_ammo (s : game) :
  (0 <= ammo s)%Z ->
  (0 <= ammo (shoot rand s) <= ammo s)%Z.
Proof.
  intro H0. destruct (Z_lt_le_dec 0 (ammo s)) as [H | H].
  - rewrite (shoot_val rand s H). cbv zeta. cbn [ammo]. lia.
  - rewrite shoot_empty by exact H. lia.
Qed.

Lemma shoot_score (s : game) :
  Forall (fun e => (0 <= e_type e)%Z) (enemies s) ->
  (score s <= score (shoot rand s))%Z.
Proof.
  intro Ht. destruct (Z_lt_le_dec 0 (ammo s)) as [H | H].
  - rewrite (shoot_val rand s H). cbv zeta. cbn [score].
    destruct (scan_spec rand (player_x s) (player_y s) (player_angle s)
                        (enemies s) (draws s) (score s))
      as [(_ & ->) | (pre & e & post & He & _ & _ & _ & _ & ->)]; cbn [snd]; [lia |].
    rewrite He in Ht. apply Forall_app in Ht as (_ & Ht).
    apply Forall_inv in Ht. lia.
  - rewrite shoot_empty by exact H. lia.
Qed.

Lemma same_or_died_types (es es' : list enemy) :
  Forall2 same_or_died es es' ->
  Forall (fun e => (0 <= e_type e)%Z) es ->
  Forall (fun e => (0 <= e_type e)%Z) es'.
Proof.
  induction 1 as [| e e' es es' (_ & _ & Ht & _) _ IH]; intro H; constructor.
  - apply Forall_inv in H. lia.
  - apply IH. now apply Forall_inv_tail in H.
Qed.

Lemma same_or_died_trans (l1 l2 l3 : list enemy) :
  Forall2 same_or_died l1 l2 -> Forall2 same_or_died l2 l3 ->
  Forall2 same_or_died l1 l3.
Proof.
  intro H. revert l3. induction H as [| a b l1 l2 Hab _ IH]; intros l3 H23;
    inversion H23 as [| b' c l2' l3' Hbc Hrest]; subst; constructor.
  - destruct Hab as (A1 & A2 & A3 & A4). destruct Hbc as (B1 & B2 & B3 & B4).
    repeat split; try congruence. auto.
  - now apply IH.
Qed.

(** One frame: the enemies may only die, ammunition and score move the
    right way, and soundness is kept. *)
Lemma frame_step (i : Z * Z) (s s' : game) :
  frame rand g i s = Ret s' ->
  Forall2 same_or_died (enemies s) (enemies s')
  /\ (sound s -> sound s' /\ (ammo s' <= ammo s)%Z /\ (score s <= score s')%Z).
Proof.
  unfold frame. destruct (handle_key rand g (fst i) s) as [s1 | |] eqn:Hk; cbn [bind];
    intro H; try discriminate H. injection H as <-.
  assert (Hw : enemies (draw_weapon (snd i) s1) = enemies s1
               /\ ammo (draw_weapon (snd i) s1) = ammo s1
               /\ score (draw_weapon (snd i) s1) = score s1).
  { unfold draw_weapon. destruct (snd i >? 8)%Z; [| auto].
    destruct (shooting s1 && (shot_timer s1 <? 3)%Z); auto. }
  destruct Hw as (We & Wa & Ws). unfold sound. rewrite We, Wa, Ws.
  apply handle_key_cases in Hk as [(Ha & Hs & He & _) | (_ & ->)].
  - rewrite Ha, Hs, He. split; [apply Forall2_same_refl |].
    intros (H0 & Ht). repeat split; auto; lia.
  - split; [apply shoot_enemies |]. intros (H0 & Ht).
    pose proof (shoot_ammo s H0). pose proof (shoot_score s Ht).
    repeat split; try lia.
    exact (same_or_died_types _ _ (shoot_enemies s) Ht).
Qed.

Lemma run_steps (inputs : list (Z * Z)) :
  forall s s',
    run rand g inputs s = Ret s' ->
    Forall2 same_or_died (enemies s) (enemies s')
    /\ (sound s -> sound s' /\ (ammo s' <= ammo s)%Z /\ (score s <= score s')%Z).
Proof.
  induction inputs as [| i rest IH]; intros s s' H; cbn [run] in H.
  - injection H as <-. split; [apply Forall2_same_refl |]. intro Hs.
    repeat split; try apply Hs; lia.
  - destruct (running s).
    2: { injection H as <-. split; [apply Forall2_same_refl |]. intro Hs.
         repeat split; try apply Hs; lia. }
    destruct (frame rand g i s) as [s1 | |] eqn:Hf; cbn [bind] in H; try discriminate H.
    apply frame_step in Hf as (F1 & S1). apply IH in H as (F2 & S2).
    split; [exact (same_or_died_trans _ _ _ F1 F2) |].
    intro Hs. destruct (S1 Hs) as (Hs1 & A1 & C1). destruct (S2 Hs1) as (Hs2 & A2 & C2).
    repeat split; try apply Hs2; lia.
Qed.

Lemma run_total (inputs : list (Z * Z)) :
  rectangular g = true -> forall s, exists s', run rand g inputs s = Ret s'.
Proof.
  intro Hr. induction inputs as [| i rest IH]; intro s; cbn [run].
  - now exists s.
  - destruct (running s); [| now exists s].
    unfold frame. destruct (handle_key_total (fst i) s Hr) as (s1 & H1).
    rewrite H1. cbn [bind]. apply IH.
Qed.

End LoopFacts.

Lemma sound_initial : sound initial.
Proof. split; [vm_compute; congruence |]. repeat constructor; simpl; lia. Qed.

(** C7 : A shoot key with no ammunition returns the state unchanged:
    no round is used, no enemy dies, the score and the draw count stay.
    With ammunition it uses exactly one round.  Hence along every run
    of the game loop from a sound state the ammunition never becomes
    negative and never grows, and the score never decreases; on a
    rectangular map every run returns. *)
Theorem C7_ammo_and_score {M : Math} (rand : nat -> Q) (g : grid) :
  (forall s, ammo s = 0%Z -> handle_key rand g ord_space s = Ret s)
  /\ (forall s, (0 < ammo s)%Z ->
        exists s', handle_key rand g ord_space s = Ret s'
                   /\ ammo s' = (ammo s - 1)%Z)
  /\ (forall inputs s s',
        sound s -> run rand g inputs s = Ret s' ->
        (0 <= ammo s')%Z /\ (ammo s' <= ammo s)%Z /\ (score s <= score s')%Z)
  /\ (rectangular g = true ->
      forall inputs s, exists s', run rand g inputs s = Ret s').
Proof.
  split; [| split; [| split]].
  - intros s H. change (handle_key rand g ord_space s) with (Ret (shoot rand s)).
    rewrite shoot_empty by lia. reflexivity.
  - intros s H. exists (shoot rand s). split; [reflexivity |].
    rewrite (shoot_val rand s H). reflexivity.
  - intros inputs s s' Hs Hrun.
    destruct (run_steps rand g inputs s s' Hrun) as (_ & Hinv).
    destruct (Hinv Hs) as ((H0 & _) & Ha & Hc). auto.
  - intros Hr inputs s. now apply run_total.
Qed.

(** An instance of C7: two shots and a step from the opening state. *)
Lemma C7_ammo_and_score_witness :
  sound initial
  /\ exists s',
      run (M := Approx.math) no_luck MAP [(ord_space, 24); (ord_space, 24); (ord_w, 24)]%Z
          initial = Ret s'
      /\ (0 <= ammo s')%Z /\ (score initial <= score s')%Z.
Proof.
  split; [exact sound_initial |].
  destruct (C7_ammo_and_score (M := Approx.math) no_luck MAP) as (_ & _ & Hrun & Htot).
  destruct (Htot eq_refl [(ord_space, 24); (ord_space, 24); (ord_w, 24)]%Z initial)
    as (s' & Hs').
  exists s'. split; [exact Hs' |].
  destruct (Hrun _ _ _ sound_initial Hs') as (H0 & _ & Hc). auto.
Defined.

Lemma Forall2_nth {A : Type} (R : A -> A -> Prop) (l l' : list A) :
  Forall2 R l l' ->
  forall i b, nth_error l' i = Some b -> exists a, nth_error l i = Some a /\ R a b.
Proof.
  induction 1 as [| a b l l' Hab _ IH]; intros [| i] c H; simpl in H; try discriminate H.
  - injection H as <-. exists a. auto.
  - now apply IH.
Qed.

(** C9 : Along every run of the game loop (frames of key handling and
    drawing, whatever the keys), the enemy list keeps its length and, at
    every index, the same position and class; an enemy alive after the
    run was alive before it, so a flag that went to false is never set
    back, in this run or in any run that follows. *)
Theorem C9_enemies_only_die {M : Math} (rand : nat -> Q) (g : grid)
  (inputs : list (Z * Z)) (s s' : game) :
  run rand g inputs s = Ret s' ->
  Forall2 same_or_died (enemies s) (enemies s')
  /\ List.length (enemies s') = List.length (enemies s)
  /\ (forall i e', nth_error (enemies s') i = Some e' ->
        exists e, nth_error (enemies s) i = Some e
                  /\ e_x e' = e_x e /\ e_y e' = e_y e /\ e_type e' = e_type e
                  /\ (e_alive e = false -> e_alive e' = false))
  /\ (forall more s'' i e' e'',
        run rand g more s' = Ret s'' ->
        nth_error (enemies s') i = Some e' -> e_alive e' = false ->
        nth_error (enemies s'') i = Some e'' -> e_alive e'' = false).
Proof.
  intro Hrun. destruct (run_steps rand g inputs s s' Hrun) as (HF & _).
  split; [exact HF |]. split; [symmetry; exact (Forall2_length HF) |]. split.
  - intros i e' He'. destruct (Forall2_nth _ _ _ HF i e' He') as (e & He & Hx & Hy & Ht & Ha).
    exists e. repeat split; auto. intro Hd.
    destruct (e_alive e') eqn:E; [| reflexivity]. specialize (Ha eq_refl). congruence.
  - intros more s'' i e' e'' Hmore He' Hd He''.
    destruct (run_steps rand g more s' s'' Hmore) as (HF' & _).
    destruct (Forall2_nth _ _ _ HF' i e'' He'') as (e & He & _ & _ & _ & Ha).
    rewrite He' in He. injection He as <-.
    destruct (e_alive e'') eqn:E; [| reflexivity]. specialize (Ha eq_refl). congruence.
Qed.

(** An instance of C9: a winning shot, a losing one and a step; the
    first enemy is dead afterwards and the list still has seven
    entries. *)
Lemma C9_enemies_only_die_witness :
  exists s',
    run (M := Approx.math) sure_hit MAP [(ord_space, 24); (ord_w, 24); (ord_space, 24)]%Z
        initial = Ret s'
    /\ List.length (enemies s') = 7%nat.
Proof.
  assert (H : { s' | run (M := Approx.math) sure_hit MAP
                         [(ord_space, 24); (ord_w, 24); (ord_space, 24)]%Z initial = Ret s' }).
  { eexists. vm_compute. reflexivity. }
  destruct H as (s' & Hrun). exists s'. split; [exact Hrun |].
  destruct (C9_enemies_only_die (M := Approx.math) sure_hit MAP _ _ _ Hrun) as (_ & Hl & _).
  exact Hl.
Defined.

(** * Further properties of the code *)

(** ** Turning *)








(** ** Where the player can be *)

Lemma int_proper (a b : Q) : a == b -> Py.int a = Py.int b.
Proof.
  intro H. apply Z.le_antisymm; apply int_mono; lra.
Qed.




Lemma draw_weapon_position (h : Z) (s : game) :
  player_x (draw_weapon h s) = player_x s /\ player_y (draw_weapon h s) = player_y s
  /\ player_health (draw_weapon h s) = player_health s
  /\ player_angle (draw_weapon h s) = player_angle s
  /\ running (draw_weapon h s) = running s.
Proof.
  unfold draw_weapon. destruct (h >? 8)%Z; [| auto].
  destruct (shooting s && (shot_timer s <? 3)%Z); auto.
Qed.





(** ** What a run keeps *)

Lemma handle_key_health {M : Math} (rand : nat -> Q) (g : grid) (key : Z) (s s' : game) :
  handle_key rand g key s = Ret s' -> player_health s' = player_health s.
Proof.
  unfold handle_key.
  repeat match goal with
         | |- context [if (key =? ?k)%Z then _ else _] => destruct (key =? k)%Z
         end;
    try (intros [= <-]; reflexivity);
    try (intro H; apply try_move_cases in H as [-> | ->]; reflexivity).
  intros [= <-]. unfold shoot. destruct (ammo s >? 0)%Z; [| reflexivity].
  destruct (scan _ _ _ _ _ _ _) as [[es k] sc]. reflexivity.
Qed.

(** X5 : No key and no frame changes the player's health: after every
    run of the game loop it is what it was at the start. *)
Theorem X5_health_never_changes {M : Math} (rand : nat -> Q) (g : grid)
  (inputs : list (Z * Z)) (s s' : game) :
  run rand g inputs s = Ret s' -> player_health s' = player_health s.
Proof.
  revert s. induction inputs as [| i rest IH]; intros s Hrun; cbn [run] in Hrun.
  - now injection Hrun as <-.
  - destruct (running s); [| now injection Hrun as <-].
    unfold frame in Hrun.
    destruct (handle_key rand g (fst i) s) as [s1 | |] eqn:Hk; cbn [bind] in Hrun;
      try discriminate Hrun.
    rewrite (IH _ Hrun).
    destruct (draw_weapon_position (snd i) s1) as (_ & _ & -> & _).
    exact (handle_key_health rand g _ _ _ Hk).
Qed.

Lemma X5_health_never_changes_witness :
  exists s',
    run (M := Approx.math) sure_hit MAP [(ord_space, 24); (ord_w, 24)]%Z initial = Ret s'
    /\ player_health s' = 100%Z.
Proof.
  destruct (run_total (M := Approx.math) sure_hit MAP
              [(ord_space, 24); (ord_w, 24)]%Z eq_refl initial) as (s' & Hrun).
  exists s'. split; [exact Hrun |].
  exact (X5_health_never_changes (M := Approx.math) sure_hit MAP _ _ _ Hrun).
Defined.

(** X6 : The exit key ends the game: the frame in which [x] is read
    still runs its drawing, but no later input is read; player, ammo,
    score and enemies are as before the key. *)
Theorem X6_exit_key {M : Math} (rand : nat -> Q) (g : grid) (h : Z)
  (rest : list (Z * Z)) (s : game) :
  running s = true ->
  exists s',
    run rand g ((ord_x, h) :: rest) s = Ret s'
    /\ running s' = false
    /\ (forall more, run rand g more s' = Ret s')
    /\ player_x s' = player_x s /\ player_y s' = player_y s
    /\ player_angle s' = player_angle s
    /\ ammo s' = ammo s /\ score s' = score s /\ enemies s' = enemies s.
Proof.
  intro Hrun.
  set (s1 := mkGame (player_x s) (player_y s) (player_angle s) (player_health s) (ammo s)
                    (score s) (shooting s) (shot_timer s) false (enemies s) (draws s)).
  assert (Hstop : forall t more, running t = false -> run rand g more t = Ret t).
  { intros t more Ht. destruct more; cbn [run]; [reflexivity | now rewrite Ht]. }
  assert (Hoff : running (draw_weapon h s1) = false).
  { destruct (draw_weapon_position h s1) as (_ & _ & _ & _ & ->). reflexivity. }
  exists (draw_weapon h s1). cbn [run]. rewrite Hrun.
  change (frame rand g (ord_x, h) s) with (Ret (draw_weapon h s1)). cbn [bind].
  split; [now apply Hstop |]. split; [exact Hoff |].
  split; [intro more; now apply Hstop |].
  unfold draw_weapon. destruct (h >? 8)%Z; [| repeat split].
  destruct (shooting s1 && (shot_timer s1 <? 3)%Z); repeat split.
Qed.

Lemma X6_exit_key_witness :
  exists s',
    run (M := Approx.math) sure_hit MAP [(ord_x, 24); (ord_space, 24)]%Z initial = Ret s'
    /\ ammo s' = 50%Z.
Proof.
  assert (H : running initial = true) by reflexivity.
  destruct (X6_exit_key (M := Approx.math) sure_hit MAP 24 [(ord_space, 24%Z)] initial H)
    as (s' & Hrun & _ & _ & _ & _ & _ & Ha & _).
  exists s'. split; [exact Hrun | exact Ha].
Defined.

(** ** Score and the dead *)

Lemma bounty_app (l1 l2 : list enemy) : bounty (l1 ++ l2) = (bounty l1 + bounty l2)%Z.
Proof. induction l1 as [| e l1 IH]; cbn [bounty app]; [reflexivity | rewrite IH; lia]. Qed.

Lemma scan_bounty {M : Math} (rand : nat -> Q) (px py pa : Q) (es : list enemy)
  (k : nat) (sc : Z) :
  (snd (scan rand px py pa es k sc) - bounty (fst (fst (scan rand px py pa es k sc))))%Z
  = (sc - bounty es)%Z.
Proof.
  destruct (scan_spec rand px py pa es k sc)
    as [(_ & ->) | (pre & e & post & -> & Ha & _ & _ & _ & ->)]; cbn [fst snd].
  - reflexivity.
  - rewrite !bounty_app. cbn [bounty slain e_alive e_type]. rewrite Ha. lia.
Qed.

Lemma handle_key_bounty {M : Math} (rand : nat -> Q) (g : grid) (key : Z) (s s' : game) :
  handle_key rand g key s = Ret s' ->
  (score s' - bounty (enemies s'))%Z = (score s - bounty (enemies s))%Z.
Proof.
  intro H. apply handle_key_cases in H as [(_ & -> & -> & _) | (_ & ->)]; [reflexivity |].
  destruct (Z_lt_le_dec 0 (ammo s)) as [Ha | Ha].
  - rewrite (shoot_val rand s Ha). cbv zeta. cbn [score enemies]. apply scan_bounty.
  - now rewrite shoot_empty.
Qed.

Lemma bounty_bound (es es' : list enemy) :
  Forall2 same_or_died es es' ->
  Forall (fun e => (0 <= e_type e)%Z) es ->
  (0 <= bounty es' <= bounty (map slain es))%Z.
Proof.
  induction 1 as [| e e' es es' (_ & _ & Ht & _) _ IH]; intro Hty; cbn [bounty map].
  - lia.
  - pose proof (Forall_inv Hty) as H0. cbv beta in H0.
    specialize (IH (Forall_inv_tail Hty)).
    cbn [slain e_alive e_type]. destruct (e_alive e'); lia.
Qed.

(** X7 : The score always accounts for the dead: along every run the
    difference between the score and the points of the dead enemies
    (100 times class plus one, each) does not change.  In a game played
    from the opening state the score is exactly the points of the dead,
    hence between 0 and 1100. *)
Theorem X7_score_is_bounty {M : Math} (rand : nat -> Q) (g : grid)
  (inputs : list (Z * Z)) (s s' : game) :
  run rand g inputs s = Ret s' ->
  (score s' - bounty (enemies s'))%Z = (score s - bounty (enemies s))%Z
  /\ (s = initial ->
      score s' = bounty (enemies s') /\ (0 <= score s' <= 1100)%Z).
Proof.
  intro Hrun.
  assert (Hcons : (score s' - bounty (enemies s'))%Z = (score s - bounty (enemies s))%Z).
  { revert s Hrun. induction inputs as [| i rest IH]; intros s Hrun; cbn [run] in Hrun.
    - now injection Hrun as <-.
    - destruct (running s); [| now injection Hrun as <-].
      unfold frame in Hrun.
      destruct (handle_key rand g (fst i) s) as [s1 | |] eqn:Hk; cbn [bind] in Hrun;
        try discriminate Hrun.
      rewrite (IH _ Hrun). rewrite <- (handle_key_bounty rand g _ _ _ Hk).
      unfold draw_weapon. destruct (snd i >? 8)%Z; [| reflexivity].
      destruct (shooting s1 && (shot_timer s1 <? 3)%Z); reflexivity. }
  split; [exact Hcons |]. intros ->.
  assert (Hs : score s' = bounty (enemies s')).
  { change (score initial - bounty (enemies initial))%Z with 0%Z in Hcons. lia. }
  split; [exact Hs |]. rewrite Hs.
  destruct (run_steps rand g inputs initial s' Hrun) as (HF & _).
  pose proof (bounty_bound _ _ HF (proj2 sound_initial)) as Hb.
  change (bounty (map slain (enemies initial))) with 1100%Z in Hb. exact Hb.
Qed.

Lemma X7_score_is_bounty_witness :
  exists s',
    run (M := Approx.math) sure_hit MAP [(ord_space, 24); (ord_space, 24)]%Z initial = Ret s'
    /\ score s' = bounty (enemies s').
Proof.
  destruct (run_total (M := Approx.math) sure_hit MAP
              [(ord_space, 24); (ord_space, 24)]%Z eq_refl initial) as (s' & Hrun).
  exists s'. split; [exact Hrun |].
  destruct (X7_score_is_bounty (M := Approx.math) sure_hit MAP _ _ _ Hrun) as (_ & H).
  exact (proj1 (H eq_refl)).
Defined.

(** ** How likely a shot is to hit *)

Lemma hit_chance_floor {M : Math} (px py pa : Q) (e : enemy) :
  in_sights px py pa e = true -> 1 # 10 < hit_chance px py e.
Proof.
  unfold in_sights, hit_chance. intro H. apply andb_prop in H as (_ & Hd).
  apply ltb_lt in Hd.
  set (d := distance px py (inject_Z (e_x e)) (inject_Z (e_y e))) in *.
  set (q := d / inject_Z DEPTH).
  assert (Hq : q * 16 == d) by (unfold q; change (inject_Z DEPTH) with 16; field).
  change (inject_Z DEPTH) with 16 in Hd.
  unfold class_factor.
  destruct (e_type e =? 0)%Z; [lra |]. destruct (e_type e =? 1)%Z; lra.
Qed.

Lemma targets_app {M : Math} (px py pa : Q) (l1 l2 : list enemy) :
  targets px py pa (l1 ++ l2) = targets px py pa l1 ++ targets px py pa l2.
Proof. apply filter_app. Qed.

(** X8 : Every enemy a shot considers has a hit chance above 0.1, so
    when the first draw of a shot is at most 0.1 the first living enemy
    in the field of view and in range, in list order, is the one
    killed, and its points are scored. *)
Theorem X8_low_draw_kills_first {M : Math} (rand : nat -> Q) (s : game)
  (t : enemy) (ts : list enemy) :
  (0 < ammo s)%Z ->
  targets (player_x s) (player_y s) (player_angle s) (enemies s) = t :: ts ->
  rand (draws s) <= 1 # 10 ->
  1 # 10 < hit_chance (player_x s) (player_y s) t
  /\ exists pre post,
       enemies s = pre ++ t :: post
       /\ targets (player_x s) (player_y s) (player_angle s) pre = []
       /\ enemies (shoot rand s) = pre ++ slain t :: post
       /\ score (shoot rand s) = (score s + 100 * (e_type t + 1))%Z.
Proof.
  intros Hammo Hts Hdraw.
  set (px := player_x s) in *. set (py := player_y s) in *. set (pa := player_angle s) in *.
  assert (Hin : in_sights px py pa t = true).
  { assert (Hm : In t (targets px py pa (enemies s))) by (rewrite Hts; now left).
    unfold targets in Hm. apply filter_In in Hm as (_ & Hm).
    now apply andb_prop in Hm as (_ & Hm). }
  pose proof (hit_chance_floor px py pa t Hin) as Hfloor.
  split; [exact Hfloor |].
  rewrite (shoot_val rand s Hammo). cbv zeta. cbn [enemies score]. fold px py pa.
  destruct (scan_spec rand px py pa (enemies s) (draws s) (score s))
    as [(Hm & _) | (pre & e & post & He & Ha & Hi & Hm & _ & Hs)].
  - exfalso. rewrite Hts in Hm. specialize (Hm 0%nat t eq_refl).
    rewrite Nat.add_0_r in Hm. lra.
  - rewrite Hs. cbn [fst snd].
    rewrite He, targets_app in Hts. cbn [targets filter] in Hts.
    rewrite Ha, Hi in Hts. cbn [andb] in Hts.
    destruct (targets px py pa pre) as [| u us] eqn:Hpre.
    + cbn [app] in Hts. injection Hts as -> _. exists pre, post. auto.
    + exfalso. cbn [app] in Hts. injection Hts as -> _.
      specialize (Hm 0%nat t eq_refl). rewrite Nat.add_0_r in Hm. lra.
Qed.

Lemma X8_low_draw_kills_first_witness :
  exists ts,
    targets (M := Approx.math) (player_x initial) (player_y initial) (player_angle initial)
            (enemies initial) = mkEnemy 5 3 true 0 :: ts
    /\ score (shoot (M := Approx.math) sure_hit initial) = 100%Z.
Proof.
  assert (Ha : (0 < ammo initial)%Z) by (vm_compute; reflexivity).
  assert (Hd : sure_hit (draws initial) <= 1 # 10) by (vm_compute; discriminate).
  assert (Ht : { ts | targets (M := Approx.math) (player_x initial) (player_y initial)
                              (player_angle initial) (enemies initial)
                      = mkEnemy 5 3 true 0 :: ts }).
  { eexists. vm_compute. reflexivity. }
  destruct Ht as (ts & Ht). exists ts. split; [exact Ht |].
  destruct (X8_low_draw_kills_first (M := Approx.math) sure_hit initial _ ts Ha Ht Hd)
    as (_ & pre & post & _ & _ & _ & Hs).
  exact Hs.
Defined.

(** ** More on the marcher's result *)

(** X9 : With a non-negative depth limit on a rectangular grid, the
    distance the marcher returns is always below the limit plus one
    step; without a hit it is at least the limit.  (A hit may thus be
    reported up to one step beyond the limit.) *)
Theorem X9_distance_bound {M : Math} (g : grid) (depth px py rad : Q) (r : ray) :
  rectangular g = true -> 0 <= depth ->
  cast_ray g depth px py rad = Ret r ->
  0 <= distance_to_wall r
  /\ distance_to_wall r < depth + step_size
  /\ (hit_wall r = false -> depth <= distance_to_wall r).
Proof.
  intros Hrect Hd Hrun.
  destruct (cast_ray_run g px py rad Hrect depth) as (n & r0 & Hrun0 & Hin & _ & Hend).
  rewrite Hrun in Hrun0. injection Hrun0 as <-.
  assert (Hstep : forall m, (0 < m)%nat ->
            (forall j, (j < m)%nat -> travelled j < depth) ->
            step_size <= travelled m /\ travelled m < depth + step_size).
  { intros [| m] Hm Hall; [lia |]. split; [apply travelled_pos; lia |].
    cbn [travelled]. specialize (Hall m (Nat.lt_succ_diag_r m)). lra. }
  destruct Hend as [(_ & -> & H0) | (Hpos & [(_ & ->) | [(c & _ & ->) | (c & _ & -> & Hge)]])].
  - cbn [ray_start distance_to_wall]. unfold step_size.
    split; [lra |]. split; [lra |]. intros _. lra.
  - cbn [outside_ray distance_to_wall hit_wall]. unfold step_size.
    split; [lra |]. split; [lra |]. intro H. discriminate H.
  - rewrite struck_distance. destruct (Hstep n Hpos Hin) as (A & B).
    unfold step_size in *. split; [lra |]. split; [lra |].
    intro H. destruct (struck_hit g c (sample_x px rad n) (sample_y py rad n) (travelled n))
      as (Hh & _). congruence.
  - cbn [clear_ray distance_to_wall]. destruct (Hstep n Hpos Hin) as (A & B).
    unfold step_size in *. split; [lra |]. split; [lra |]. intros _. exact Hge.
Qed.

Lemma X9_distance_bound_witness :
  exists r,
    cast_ray (M := Approx.math) MAP 1 (85 # 10) (45 # 10) (Approx.radians 0) = Ret r
    /\ distance_to_wall r < 1 + step_size.
Proof.
  destruct (cast_ray_far_enough (M := Approx.math) MAP 1 (85 # 10) (45 # 10)
              (Approx.radians 0) eq_refl) as (r & Hrun & _).
  { vm_compute. discriminate. }
  assert (Hd : 0 <= 1) by (vm_compute; discriminate).
  exists r. split; [exact Hrun |].
  exact (proj1 (proj2 (X9_distance_bound (M := Approx.math) MAP 1 _ _ _ r eq_refl Hd Hrun))).
Defined.

Lemma wall_side_values (tx ty : Q) :
  (wall_side tx ty 0 = 0%Z \/ wall_side tx ty 0 = 1%Z)
  /\ (wall_side tx ty 0 = 1%Z -> on_edge tx ty = true).
Proof.
  unfold wall_side, on_edge.
  destruct (Py.ltb tx (2 # 100)), (Py.ltb (98 # 100) tx), (Py.ltb ty (2 # 100)),
    (Py.ltb (98 # 100) ty); cbn; split; auto; discriminate.
Qed.

(** X10 : The flags of a marcher result are consistent: without a hit
    no kind flag and no boundary flag is set; lower wall and pillar
    exclude each other and the corner flag; a pillar always has the
    boundary flag; the orientation is 0 or 1, and it is 1 only on a
    wall or lower wall struck within the edge tolerance (boundary
    set). *)
Theorem X10_flags_consistent {M : Math} (g : grid) (depth px py rad : Q) (r : ray) :
  rectangular g = true ->
  cast_ray g depth px py rad = Ret r ->
  (hit_wall r = false ->
   hit_lower_wall r = false /\ hit_pillar r = false /\ hit_corner r = false
   /\ boundary r = false /\ wall_orientation r = 0%Z)
  /\ (hit_lower_wall r = true -> hit_pillar r = false /\ hit_corner r = false)
  /\ (hit_pillar r = true ->
      hit_lower_wall r = false /\ hit_corner r = false /\ boundary r = true)
  /\ (wall_orientation r = 0%Z \/ wall_orientation r = 1%Z)
  /\ (wall_orientation r = 1%Z -> boundary r = true /\ hit_pillar r = false).
Proof.
  intros Hrect Hrun.
  destruct (cast_ray_run g px py rad Hrect depth) as (n & r0 & Hrun0 & _ & _ & Hend).
  rewrite Hrun in Hrun0. injection Hrun0 as <-.
  destruct Hend as [(_ & -> & _) | (_ & [(_ & ->) | [(c & _ & ->) | (c & _ & -> & _)]])];
    try (cbn; repeat split; auto; discriminate).
  unfold struck.
  set (tx := sample_x px rad n - inject_Z (Py.int (sample_x px rad n))).
  set (ty := sample_y py rad n - inject_Z (Py.int (sample_y py rad n))).
  destruct (wall_side_values tx ty) as (Hv & He).
  destruct (Ascii.eqb c "#"); [| destruct (Ascii.eqb c "L"); [| destruct (Ascii.eqb c "P")]];
    cbn [hit_wall hit_lower_wall hit_pillar hit_corner boundary wall_orientation];
    repeat split; auto; try discriminate.
Qed.

Lemma X10_flags_consistent_witness :
  exists r,
    cast_ray (M := Approx.math) MAP 1 (85 # 10) (45 # 10) (Approx.radians 0) = Ret r
    /\ (wall_orientation r = 0%Z \/ wall_orientation r = 1%Z).
Proof.
  destruct (cast_ray_far_enough (M := Approx.math) MAP 1 (85 # 10) (45 # 10)
              (Approx.radians 0) eq_refl) as (r & Hrun & _).
  { vm_compute. discriminate. }
  exists r. split; [exact Hrun |].
  destruct (X10_flags_consistent (M := Approx.math) MAP 1 _ _ _ r eq_refl Hrun)
    as (_ & _ & _ & H & _).
  exact H.
Defined.

(** ** More on the projected rows *)

Lemma int_half (vh : Z) : (0 <= vh)%Z -> Py.int (inject_Z vh / 2) = (vh / 2)%Z.
Proof.
  intro H. assert (Hhalf : inject_Z vh / 2 == inject_Z vh * (1 # 2)) by reflexivity.
  assert (Hq : (2 * (vh / 2) <= vh < 2 * (vh / 2) + 2)%Z).
  { pose proof (Z.div_mod vh 2 ltac:(lia)). pose proof (Z.mod_pos_bound vh 2 ltac:(lia)). lia. }
  destruct Hq as (A & B). rewrite Zle_Qle in A. rewrite Zlt_Qlt in B.
  rewrite inject_Z_plus, inject_Z_mult in B. rewrite inject_Z_mult in A.
  change (inject_Z 2) with 2 in A, B.
  rewrite int_floor.
  - apply floor_unique.
    + lra.
    + rewrite inject_Z_plus. change (inject_Z 1) with 1. lra.
  - assert (0 <= inject_Z vh) by (change 0 with (inject_Z 0); now rewrite <- Zle_Qle). lra.
Qed.

Lemma span_brackets (vh : Z) (h : Q) :
  (0 <= vh)%Z -> 0 <= h ->
  (Py.int (inject_Z vh / 2 - h) <= vh / 2 <= Py.int (inject_Z vh / 2 + h))%Z.
Proof.
  intros Hvh Hh. pose proof (int_half vh Hvh) as Hm.
  split; rewrite <- Hm; apply int_mono; lra.
Qed.

Lemma quotient_nonneg (vh : Z) (d : Q) :
  (0 <= vh)%Z -> 0 < d -> 0 <= inject_Z vh / d /\ 0 <= inject_Z vh / d * (5 # 10).
Proof.
  intros Hvh Hd.
  assert (HV : 0 <= inject_Z vh) by (change 0 with (inject_Z 0); rewrite <- Zle_Qle; lia).
  assert (Hh : inject_Z vh / d * d == inject_Z vh) by (field; lra).
  assert (H0 : 0 <= inject_Z vh / d)
    by (apply (quotient_bounds _ d (inject_Z vh) 0 Hd Hh); lra).
  split; lra.
Qed.

(** X11 : For a view of at least one row and a positive corrected
    distance, the rows of the wall band satisfy
    [0 <= ceiling <= view_height // 2 <= floor <= view_height - 1]:
    the band is never empty and always holds the middle row, for lower
    and full-height walls alike. *)
Theorem X11_band_holds_middle_row (vh : Z) (lower : bool) (d : Q) :
  (1 <= vh)%Z -> 0 < d ->
  exists c f,
    column_span vh lower d = Ret (c, f)
    /\ (0 <= c <= vh / 2)%Z /\ (vh / 2 <= f <= vh - 1)%Z.
Proof.
  intros Hvh Hd. rewrite column_span_val by exact Hd.
  eexists. eexists. split; [reflexivity |].
  destruct (quotient_nonneg vh d ltac:(lia) Hd) as (H1 & H2).
  assert (Hmid : (0 <= vh / 2 <= vh - 1)%Z).
  { pose proof (Z.div_mod vh 2 ltac:(lia)). pose proof (Z.mod_pos_bound vh 2 ltac:(lia)). lia. }
  destruct lower.
  - pose proof (span_brackets vh _ ltac:(lia) H2). lia.
  - pose proof (span_brackets vh _ ltac:(lia) H1). lia.
Qed.

Lemma X11_band_holds_middle_row_witness :
  exists c f, column_span 22 true (5 # 10) = Ret (c, f) /\ (c <= 11 <= f)%Z.
Proof.
  assert (H1 : (1 <= 22)%Z) by lia.
  assert (H2 : 0 < 5 # 10) by reflexivity.
  destruct (X11_band_holds_middle_row 22 true (5 # 10) H1 H2) as (c & f & E & A & B).
  exists c, f. split; [exact E |]. change (22 / 2)%Z with 11%Z in A, B. lia.
Defined.

(** X12 : Farther is never taller: for a non-negative view height and
    corrected distances [0 < d1 <= d2], the band at [d2] lies within the
    band at [d1] (ceiling not higher up, floor not lower down). *)
Theorem X12_farther_is_not_taller (vh : Z) (lower : bool) (d1 d2 : Q) :
  (0 <= vh)%Z -> 0 < d1 -> d1 <= d2 ->
  exists c1 f1 c2 f2,
    column_span vh lower d1 = Ret (c1, f1)
    /\ column_span vh lower d2 = Ret (c2, f2)
    /\ (c1 <= c2)%Z /\ (f2 <= f1)%Z.
Proof.
  intros Hvh Hd1 Hd.
  assert (Hd2 : 0 < d2) by lra.
  rewrite !column_span_val by assumption.
  do 4 eexists. split; [reflexivity |]. split; [reflexivity |].
  set (V := inject_Z vh). set (h1 := V / d1). set (h2 := V / d2).
  assert (HV : 0 <= V) by (unfold V; change 0 with (inject_Z 0); rewrite <- Zle_Qle; lia).
  assert (E1 : h1 * d1 == V) by (unfold h1; field; lra).
  assert (E2 : h2 * d2 == V) by (unfold h2; field; lra).
  assert (P2 : 0 <= h2) by (apply (quotient_bounds h2 d2 V 0 Hd2 E2); lra).
  assert (Hle : h2 <= h1).
  { apply (quotient_bounds h1 d1 V h2 Hd1 E1).
    assert (0 <= h2 * (d2 - d1)) by (apply Qmult_le_0_compat; lra). lra. }
  assert (A : (Py.int (V / 2 - (if lower then h1 * (5 # 10) else h1))
               <= Py.int (V / 2 - (if lower then h2 * (5 # 10) else h2)))%Z)
    by (apply int_mono; destruct lower; lra).
  assert (B : (Py.int (V / 2 + (if lower then h2 * (5 # 10) else h2))
               <= Py.int (V / 2 + (if lower then h1 * (5 # 10) else h1)))%Z)
    by (apply int_mono; destruct lower; lra).
  lia.
Qed.

Lemma X12_farther_is_not_taller_witness :
  exists c1 f1 c2 f2,
    column_span 22 false 2 = Ret (c1, f1) /\ column_span 22 false 8 = Ret (c2, f2)
    /\ (c1 <= c2)%Z /\ (f2 <= f1)%Z.
Proof.
  assert (H0 : (0 <= 22)%Z) by lia.
  assert (H1 : 0 < 2) by reflexivity.
  assert (H2 : 2 <= 8) by (vm_compute; discriminate).
  exact (X12_farther_is_not_taller 22 false 2 8 H0 H1 H2).
Defined.

(** ** Textures *)

Lemma index_some {A : Type} (l : list A) (i : Z) :
  (0 <= i < Z.of_nat (List.length l))%Z -> exists a, Py.index l i = Some a /\ In a l.
Proof.
  intro H. unfold Py.index. destruct (Z.ltb_spec i 0) as [? | _]; [lia |].
  destruct (nth_error l (Z.to_nat i)) as [a |] eqn:E.
  - exists a. split; [reflexivity | now apply nth_error_In in E].
  - apply nth_error_None in E. lia.
Qed.

Lemma texture_idx_range (cd : Q) (t : list Z) :
  0 <= cd -> t <> [] ->
  (0 <= texture_idx cd t <= Z.of_nat (List.length t) - 1)%Z.
Proof.
  intros Hc Ht. unfold texture_idx.
  assert (Hn : (1 <= Z.of_nat (List.length t))%Z) by (destruct t; [congruence | simpl; lia]).
  assert (Hq : 0 <= cd / inject_Z DEPTH * inject_Z (Z.of_nat (List.length t))).
  { apply Qmult_le_0_compat.
    - apply Qle_shift_div_l; [reflexivity | lra].
    - change 0 with (inject_Z 0). rewrite <- Zle_Qle. lia. }
  apply int_mono in Hq. change (Py.int 0) with 0%Z in Hq. lia.
Qed.

Lemma texture_some (cd : Q) (t : list Z) :
  0 <= cd -> t <> [] -> exists c, texture cd t = Ret c /\ In c t.
Proof.
  intros Hc Ht. unfold texture.
  destruct (index_some t (texture_idx cd t)) as (c & Hi & Hin).
  - pose proof (texture_idx_range cd t Hc Ht). lia.
  - exists c. rewrite Hi. auto.
Qed.

(** X13 : For a non-negative corrected distance the texture index of a
    non-empty ramp is a valid index, it never decreases with distance,
    and from [DEPTH] on it is the last one; so the wall character of a
    column is always found, whatever the kind of hit. *)
Theorem X13_texture_lookup (cd : Q) :
  0 <= cd ->
  (forall t, t <> [] ->
     (0 <= texture_idx cd t <= Z.of_nat (List.length t) - 1)%Z
     /\ (forall cd', cd <= cd' -> (texture_idx cd t <= texture_idx cd' t)%Z)
     /\ (inject_Z DEPTH <= cd -> texture_idx cd t = (Z.of_nat (List.length t) - 1)%Z))
  /\ (forall r, exists gl, wall_glyph r cd = Ret gl).
Proof.
  intro Hc. split.
  - intros t Ht. split; [now apply texture_idx_range |]. split.
    + intros cd' Hle. unfold texture_idx. apply Z.min_le_compat_r. apply int_mono.
      assert (Hn : 0 <= inject_Z (Z.of_nat (List.length t)))
        by (change 0 with (inject_Z 0); rewrite <- Zle_Qle; lia).
      assert (A : cd / inject_Z DEPTH <= cd' / inject_Z DEPTH).
      { unfold Qdiv. apply Qmult_le_compat_r; [exact Hle | vm_compute; discriminate]. }
      apply Qmult_le_compat_r; assumption.
    + intro Hfar. unfold texture_idx. apply Z.min_r.
      set (n := Z.of_nat (List.length t)).
      rewrite <- (int_inject (n - 1)). apply int_mono.
      assert (Hn : 0 <= inject_Z n)
        by (change 0 with (inject_Z 0); rewrite <- Zle_Qle; unfold n; lia).
      assert (A : 1 <= cd / inject_Z DEPTH).
      { apply Qle_shift_div_l; [reflexivity | lra]. }
      assert (B : 0 <= (cd / inject_Z DEPTH - 1) * inject_Z n)
        by (apply Qmult_le_0_compat; lra).
      assert (C : inject_Z (n - 1) == inject_Z n - 1).
      { unfold Z.sub. rewrite inject_Z_plus, inject_Z_opp. reflexivity. }
      rewrite C. lra.
  - intro r. unfold wall_glyph.
    destruct (hit_pillar r).
    { destruct (texture_some cd pillar_textures Hc) as (c & -> & _); [discriminate |].
      eexists; reflexivity. }
    destruct (hit_corner r).
    { destruct (texture_some cd corner_textures Hc) as (c & -> & _); [discriminate |].
      eexists; reflexivity. }
    destruct (hit_lower_wall r); [eexists; reflexivity |].
    destruct (wall_orientation r =? 0)%Z.
    + destruct (texture_some cd ns_wall_textures Hc) as (c & -> & _); [discriminate |].
      eexists; reflexivity.
    + destruct (texture_some cd ew_wall_textures Hc) as (c & -> & _); [discriminate |].
      eexists; reflexivity.
Qed.

Lemma X13_texture_lookup_witness :
  (0 <= texture_idx 20 ns_wall_textures <= 7)%Z
  /\ texture_idx 20 ns_wall_textures = 7%Z.
Proof.
  assert (H : 0 <= 20) by (vm_compute; discriminate).
  destruct (X13_texture_lookup 20 H) as (Ht & _).
  destruct (Ht ns_wall_textures ltac:(discriminate)) as (A & _ & B).
  split; [exact A |]. apply B. vm_compute. discriminate.
Defined.

(** ** The sprite of a column *)

Section SpriteFacts.
Context {M : Math}.
Variables px py ra cd : Q.

Lemma nearer_trans (d d' : Q) (best : option Q) :
  d < d' -> nearer d' best = true -> nearer d best = true.
Proof.
  destruct best as [b |]; [| reflexivity]. simpl. rewrite !ltb_lt. lra.
Qed.

Lemma not_nearer_le (d d' : Q) (best : option Q) :
  nearer d' best = true -> nearer d best = false -> d' <= d.
Proof.
  destruct best as [b |]; [| discriminate]. simpl. rewrite ltb_lt, ltb_ge. lra.
Qed.

Lemma find_enemy_acc (es : list enemy) :
  forall sp,
    (find_enemy px py ra cd es sp = sp
     /\ forall e, In e es -> sprite_candidate px py ra cd e ->
                  nearer (enemy_dist px py e) (enemy_distance sp) = false)
    \/ (exists e,
          In e es /\ sprite_candidate px py ra cd e
          /\ nearer (enemy_dist px py e) (enemy_distance sp) = true
          /\ find_enemy px py ra cd es sp
             = mkSprite true (Some (enemy_dist px py e)) (e_type e)
          /\ forall e', In e' es -> sprite_candidate px py ra cd e' ->
                        enemy_dist px py e <= enemy_dist px py e').
Proof.
  induction es as [| e es IH]; intro sp.
  - left. split; [reflexivity |]. intros e [].
  - cbn [find_enemy]. destruct (e_alive e) eqn:Ea.
    + destruct (in_column px py ra cd e) eqn:Ec.
      * destruct (nearer (enemy_dist px py e) (enemy_distance sp)) eqn:En; cbn [andb].
        -- right.
           destruct (IH (mkSprite true (Some (enemy_dist px py e)) (e_type e)))
             as [(Hs & Hall) | (e2 & Hin & Hc2 & Hn2 & Hs & Hmin)]; cbn [enemy_distance] in *.
           ++ exists e. rewrite Hs. repeat split; auto; [now left |].
              intros e' [<- | Hin'] Hc'; [lra |].
              specialize (Hall e' Hin' Hc'). simpl in Hall. now apply ltb_ge in Hall.
           ++ simpl in Hn2. apply ltb_lt in Hn2.
              exists e2. rewrite Hs. repeat split; auto; try apply Hc2; [now right | |].
              ** now apply (nearer_trans _ (enemy_dist px py e)).
              ** intros e' [<- | Hin'] Hc'; [lra | now apply Hmin].
        -- destruct (IH sp) as [(Hs & Hall) | (e2 & Hin & Hc2 & Hn2 & Hs & Hmin)].
           ++ left. split; [exact Hs |]. intros e' [<- | Hin'] Hc'; auto.
           ++ right. exists e2. rewrite Hs. repeat split; auto; try apply Hc2; [now right |].
              intros e' [<- | Hin'] Hc'; [| now apply Hmin].
              now apply (not_nearer_le _ _ (enemy_distance sp)).
      * cbn [andb]. destruct (IH sp) as [(Hs & Hall) | (e2 & Hin & Hc2 & Hn2 & Hs & Hmin)].
        -- left. split; [exact Hs |]. intros e' [<- | Hin'] Hc'; auto.
           destruct Hc' as (_ & Hc'). congruence.
        -- right. exists e2. rewrite Hs. repeat split; auto; try apply Hc2; [now right |].
           intros e' [<- | Hin'] Hc'; [| now apply Hmin].
           destruct Hc' as (_ & Hc'). congruence.
    + destruct (IH sp) as [(Hs & Hall) | (e2 & Hin & Hc2 & Hn2 & Hs & Hmin)].
      * left. split; [exact Hs |]. intros e' [<- | Hin'] Hc'; auto.
        destruct Hc' as (Hc' & _). congruence.
      * right. exists e2. rewrite Hs. repeat split; auto; try apply Hc2; [now right |].
        intros e' [<- | Hin'] Hc'; [| now apply Hmin].
        destruct Hc' as (Hc' & _). congruence.
Qed.

End SpriteFacts.

(** X14 : The sprite search of a column returns no sprite exactly when
    no living enemy is both within 3 degrees of the ray and nearer than
    the corrected wall distance; otherwise it returns the distance and
    class of such an enemy that is nearest among them.  A dead enemy is
    never drawn. *)
Theorem X14_nearest_sprite {M : Math} (px py ra cd : Q) (es : list enemy) :
  let sp := find_enemy px py ra cd es no_sprite in
  (sp = no_sprite
   /\ forall e, In e es -> e_alive e = true -> in_column px py ra cd e = false)
  \/ (exists e,
        In e es /\ e_alive e = true
        /\ Py.abs (ray_diff_to px py ra e) < 3 /\ enemy_dist px py e < cd
        /\ sp = mkSprite true (Some (enemy_dist px py e)) (e_type e)
        /\ forall e', In e' es -> e_alive e' = true -> in_column px py ra cd e' = true ->
                      enemy_dist px py e <= enemy_dist px py e').
Proof.
  intro sp. subst sp.
  destruct (find_enemy_acc px py ra cd es no_sprite)
    as [(Hs & Hall) | (e & Hin & (Ha & Hc) & _ & Hs & Hmin)].
  - left. split; [exact Hs |]. intros e Hin Ha.
    destruct (in_column px py ra cd e) eqn:Ec; [| reflexivity].
    specialize (Hall e Hin (conj Ha Ec)). discriminate Hall.
  - right. exists e. unfold in_column in Hc. apply andb_prop in Hc as (C1 & C2).
    apply ltb_lt in C1, C2. repeat split; auto.
    intros e' Hin' Ha' Hc'. apply Hmin; [exact Hin' | split; assumption].
Qed.

(** In the opening view the column facing the first enemy shows it. *)
Example sprite_facing_first_enemy :
  enemy_hit (find_enemy (M := Approx.math) 2 2 18 16 ENEMIES no_sprite) = true
  /\ enemy_type (find_enemy (M := Approx.math) 2 2 18 16 ENEMIES no_sprite) = 0%Z.
Proof. split; vm_compute; reflexivity. Qed.

(** ** Rows of a column *)

Section RowFacts.
Context {M : Math}.
Variables px py rad : Q.
Variable vh : Z.

Lemma enemy_glyph_total (ty frame : Z) :
  (0 <= frame < 3)%Z -> exists gl, enemy_glyph ty frame = Ret gl.
Proof.
  intro H. unfold enemy_glyph.
  destruct (ty =? 0)%Z; [| destruct (ty =? 1)%Z];
    match goal with
    | |- context [Py.index ?l frame] =>
      destruct (index_some l frame) as (c & -> & _); [simpl; lia | eexists; reflexivity]
    end.
Qed.

Lemma wall_glyph_total (r : ray) (cd : Q) : 0 <= cd -> exists gl, wall_glyph r cd = Ret gl.
Proof.
  intro Hc. unfold wall_glyph.
  destruct (hit_pillar r).
  { destruct (texture_some cd pillar_textures Hc) as (c & -> & _); [discriminate |].
    eexists; reflexivity. }
  destruct (hit_corner r).
  { destruct (texture_some cd corner_textures Hc) as (c & -> & _); [discriminate |].
    eexists; reflexivity. }
  destruct (hit_lower_wall r); [eexists; reflexivity |].
  destruct (wall_orientation r =? 0)%Z.
  - destruct (texture_some cd ns_wall_textures Hc) as (c & -> & _); [discriminate |].
    eexists; reflexivity.
  - destruct (texture_some cd ew_wall_textures Hc) as (c & -> & _); [discriminate |].
    eexists; reflexivity.
Qed.

Lemma draw_row_total (r : ray) (cd : Q) (ceiling floor : Z) (sp : sprite) (frame y : Z) :
  0 <= cd -> (0 <= frame < 3)%Z ->
  (forall ed, enemy_distance sp = Some ed -> ~ ed == 0) ->
  exists o, draw_row px py rad vh r cd ceiling floor sp frame y = Ret o.
Proof.
  intros Hc Hf Hd. unfold draw_row.
  destruct (y <? ceiling)%Z; [eexists; reflexivity |].
  destruct ((y >=? ceiling)%Z && (y <=? floor)%Z); [| eexists; reflexivity].
  destruct (wall_glyph_total r cd Hc) as (w & Hw).
  destruct (enemy_hit sp).
  - assert (Hh : exists h, enemy_height vh sp = Ret h).
    { unfold enemy_height. destruct (enemy_distance sp) as [ed |] eqn:E; [| now eexists].
      destruct (Qeq_bool ed 0) eqn:Q; [| now eexists].
      apply Qeq_bool_iff in Q. now destruct (Hd ed eq_refl). }
    destruct Hh as (h & ->). cbn [bind].
    destruct (_ && _).
    + destruct (enemy_glyph_total (enemy_type sp) frame Hf) as (e & ->). eexists; reflexivity.
    + destruct (hit_wall r); [rewrite Hw |]; eexists; reflexivity.
  - rewrite Hw. eexists; reflexivity.
Qed.

Lemma draw_rows_total (r : ray) (cd : Q) (ceiling floor : Z) (sp : sprite) (frame : Z)
  (n : nat) :
  0 <= cd -> (0 <= frame < 3)%Z ->
  (forall ed, enemy_distance sp = Some ed -> ~ ed == 0) ->
  forall y, exists rows,
    draw_rows px py rad vh r cd ceiling floor sp frame y n = Ret rows
    /\ List.length rows = n.
Proof.
  intros Hc Hf Hd. induction n as [| n IH]; intro y; cbn [draw_rows].
  - now exists [].
  - destruct (draw_row_total r cd ceiling floor sp frame y Hc Hf Hd) as (o & ->).
    destruct (IH (y + 1)%Z) as (rows & -> & Hl). cbn [bind].
    exists (o :: rows). split; [reflexivity | simpl; now rewrite Hl].
Qed.

(** X15 : In the wall band of a column whose ray found nothing within
    range, a row is still drawn as a plain north-south wall when no
    sprite is in the column; but when a sprite is, the band rows outside
    the sprite's own span are left undrawn. *)
Theorem X15_out_of_range_rows (k : nat) (r : ray) (cd : Q) (ceiling floor : Z)
  (sp : sprite) (frame y : Z) :
  clean_at k r -> 0 <= cd -> (ceiling <= y <= floor)%Z ->
  (enemy_hit sp = false ->
   exists c, draw_row px py rad vh r cd ceiling floor sp frame y
             = Ret (Some (mkGlyph c 1 true))
             /\ In c ns_wall_textures)
  /\ (enemy_hit sp = true ->
      forall ed, enemy_distance sp = Some ed -> ~ ed == 0 ->
      ~ (Py.int (inject_Z vh / 2 - inject_Z vh / ed / 2) <= y
         <= Py.int (inject_Z vh / 2 + inject_Z vh / ed / 2))%Z ->
      draw_row px py rad vh r cd ceiling floor sp frame y = Ret None).
Proof.
  intros (_ & Hh & Hl & Hp & Hco & _ & Ho & _) Hc Hy. unfold draw_row.
  destruct (Z.ltb_spec y ceiling) as [? | _]; [lia |].
  replace ((y >=? ceiling)%Z && (y <=? floor)%Z) with true
    by (symmetry; apply andb_true_intro; rewrite Z.geb_leb, !Z.leb_le; lia).
  split.
  - intros ->. unfold wall_glyph. rewrite Hp, Hco, Hl, Ho. cbn [Z.eqb].
    destruct (texture_some cd ns_wall_textures Hc) as (c & -> & Hin); [discriminate |].
    exists c. auto.
  - intros -> ed Hed Hnz Hout. unfold enemy_height. rewrite Hed.
    destruct (Qeq_bool ed 0) eqn:Q; [apply Qeq_bool_iff in Q; contradiction |].
    cbn [bind]. rewrite Hh.
    destruct ((y >=? _)%Z && (y <=? _)%Z) eqn:E; [| reflexivity].
    exfalso. apply Hout. apply andb_prop in E as (E1 & E2).
    rewrite Z.geb_leb in E1. apply Z.leb_le in E1, E2. lia.
Qed.

End RowFacts.

Lemma X15_out_of_range_rows_witness :
  exists c,
    draw_row (M := Approx.math) 2 2 0 22 (clear_ray (M := Approx.math) 2 2 0 800) 16 10 12
             no_sprite 0 11
    = Ret (Some (mkGlyph c 1 true)).
Proof.
  assert (Hc : 0 <= 16) by (vm_compute; discriminate).
  assert (Hy : (10 <= 11 <= 12)%Z) by lia.
  destruct (X15_out_of_range_rows (M := Approx.math) 2 2 0 22 800
              (clear_ray (M := Approx.math) 2 2 0 800) 16 10 12 no_sprite 0 11
              (clear_ray_clean 2 2 0 800) Hc Hy) as (H & _).
  destruct (H eq_refl) as (c & Hrow & _). exists c. exact Hrow.
Defined.

(** ** A whole column *)

Section ColumnFacts.
Context {M : Math}.
Variable g : grid.
Variable s : game.
Variables frame width vh x : Z.
Hypothesis Hrect : rectangular g = true.
Hypothesis Hcos : forall a, -90 < a -> a < 90 -> 0 < dcos a.
Hypothesis Hx : (0 <= x < Z.min width 1000)%Z.

Lemma column_returns :
  exists r,
    column g (player_x s) (player_y s) (player_angle s) width vh x
    = Ret (r, distance_to_wall r * fisheye_correction (player_angle s) width x,
           (Z.max 0 (Py.int (inject_Z vh / 2
               - (if hit_lower_wall r
                  then inject_Z vh / (distance_to_wall r
                                      * fisheye_correction (player_angle s) width x)
                       * (5 # 10)
                  else inject_Z vh / (distance_to_wall r
                                      * fisheye_correction (player_angle s) width x)))),
            Z.min (vh - 1) (Py.int (inject_Z vh / 2
               + (if hit_lower_wall r
                  then inject_Z vh / (distance_to_wall r
                                      * fisheye_correction (player_angle s) width x)
                       * (5 # 10)
                  else inject_Z vh / (distance_to_wall r
                                      * fisheye_correction (player_angle s) width x))))))
    /\ 0 < distance_to_wall r * fisheye_correction (player_angle s) width x.
Proof.
  destruct (corrected_angle_range (player_angle s) width x Hx) as (Alo & Ahi).
  assert (HF : inject_Z FOV / 2 == 35) by reflexivity.
  assert (Hfish : 0 < fisheye_correction (player_angle s) width x).
  { unfold fisheye_correction. apply (Hcos (corrected_angle (player_angle s) width x)); lra. }
  destruct (cast_ray_far_enough g (inject_Z DEPTH) (player_x s) (player_y s)
              (m_radians (ray_angle (player_angle s) width x)) Hrect) as (r & Hrun & Hfar).
  { vm_compute. discriminate. }
  assert (Hpos : 0 < distance_to_wall r * fisheye_correction (player_angle s) width x).
  { apply Qmult_lt_0_compat; [unfold step_size in Hfar; lra | exact Hfish]. }
  exists r. split; [| exact Hpos].
  unfold column. rewrite Hrun. cbn [bind].
  rewrite (column_span_val vh _ _ Hpos). reflexivity.
Qed.

(** X16 : Drawing a column never raises: on a rectangular map, for a
    visited column, an animation frame in 0..2 and no living enemy at
    distance exactly 0 from the player, the column renderer returns one
    entry for each of the [min(view_height, 1000)] rows. *)
Theorem X16_column_is_drawn :
  (0 <= frame < 3)%Z ->
  (forall e, In e (enemies s) -> e_alive e = true ->
             ~ enemy_dist (player_x s) (player_y s) e == 0) ->
  exists rows,
    draw_column g s frame width vh x = Ret rows
    /\ List.length rows = Z.to_nat (Z.min vh 1000).
Proof.
  intros Hf Hnz. unfold draw_column.
  destruct column_returns as (r & -> & Hpos). cbn [bind fst snd].
  apply draw_rows_total; [lra | exact Hf |].
  intros ed Hed.
  destruct (find_enemy_acc (player_x s) (player_y s)
              (ray_angle (player_angle s) width x)
              (distance_to_wall r * fisheye_correction (player_angle s) width x)
              (enemies s) no_sprite)
    as [(Hs & _) | (e & Hin & (Ha & _) & _ & Hs & _)]; rewrite Hs in Hed.
  - discriminate Hed.
  - injection Hed as <-. now apply Hnz.
Qed.

Lemma draw_rows_raise (r : ray) (cd : Q) (ceiling floor : Z) (sp : sprite) (n : nat) :
  enemy_hit sp = true ->
  (exists ed, enemy_distance sp = Some ed /\ ed == 0) ->
  (ceiling <= floor)%Z ->
  forall y, (y <= ceiling)%Z -> (ceiling < y + Z.of_nat n)%Z ->
  draw_rows (player_x s) (player_y s)
            (m_radians (ray_angle (player_angle s) width x)) vh r cd ceiling floor
            sp frame y n = Raise ZeroDivisionError.
Proof.
  intros Hh (ed & Hed & H0) Hcf. induction n as [| n IH]; intros y Hy Hn; [lia |].
  cbn [draw_rows]. unfold draw_row at 1.
  destruct (Z.ltb_spec y ceiling) as [Hlt | Hge].
  - cbn [bind]. rewrite IH by lia. reflexivity.
  - assert (y = ceiling) by lia. subst y.
    replace ((ceiling >=? ceiling)%Z && (ceiling <=? floor)%Z) with true
      by (symmetry; apply andb_true_intro; rewrite Z.geb_leb, !Z.leb_le; lia).
    rewrite Hh. unfold enemy_height. rewrite Hed.
    apply Qeq_bool_iff in H0. rewrite H0. reflexivity.
Qed.

(** X17 : Standing exactly on a living enemy ends the game with a
    division by zero: if distances are never negative, the view has
    between 1 and 1000 rows, and a living enemy at distance 0 is within
    3 degrees of a visited column's ray, drawing that column raises
    [ZeroDivisionError]. *)
Theorem X17_standing_on_an_enemy (e : enemy) :
  (1 <= vh <= 1000)%Z ->
  (forall e', In e' (enemies s) -> 0 <= enemy_dist (player_x s) (player_y s) e') ->
  In e (enemies s) -> e_alive e = true ->
  enemy_dist (player_x s) (player_y s) e == 0 ->
  Py.abs (ray_diff_to (player_x s) (player_y s) (ray_angle (player_angle s) width x) e) < 3 ->
  draw_column g s frame width vh x = Raise ZeroDivisionError.
Proof.
  intros Hvh Hnn Hin Ha H0 Hdiff. unfold draw_column.
  destruct column_returns as (r & -> & Hpos). cbn [bind fst snd].
  set (cd := distance_to_wall r * fisheye_correction (player_angle s) width x) in *.
  assert (Hcand : sprite_candidate (player_x s) (player_y s)
                    (ray_angle (player_angle s) width x) cd e).
  { split; [exact Ha |]. unfold in_column. apply andb_true_intro.
    rewrite !ltb_lt. split; [exact Hdiff | lra]. }
  destruct (quotient_nonneg vh cd ltac:(lia) Hpos) as (Q1 & Q2).
  assert (Hmid : (0 <= vh / 2 <= vh - 1)%Z).
  { pose proof (Z.div_mod vh 2 ltac:(lia)). pose proof (Z.mod_pos_bound vh 2 ltac:(lia)). lia. }
  apply draw_rows_raise.
  - destruct (find_enemy_acc (player_x s) (player_y s)
                (ray_angle (player_angle s) width x) cd (enemies s) no_sprite)
      as [(_ & Hall) | (e0 & _ & _ & _ & -> & _)]; [| reflexivity].
    specialize (Hall e Hin Hcand). discriminate Hall.
  - destruct (find_enemy_acc (player_x s) (player_y s)
                (ray_angle (player_angle s) width x) cd (enemies s) no_sprite)
      as [(_ & Hall) | (e0 & Hin0 & _ & _ & -> & Hmin)].
    + specialize (Hall e Hin Hcand). discriminate Hall.
    + eexists. split; [reflexivity |].
      specialize (Hmin e Hin Hcand). specialize (Hnn e0 Hin0). lra.
  - destruct (hit_lower_wall r).
    + pose proof (span_brackets vh _ ltac:(lia) Q2). lia.
    + pose proof (span_brackets vh _ ltac:(lia) Q1). lia.
  - lia.
  - rewrite Z2Nat.id by lia.
    destruct (hit_lower_wall r).
    + pose proof (span_brackets vh _ ltac:(lia) Q2). lia.
    + pose proof (span_brackets vh _ ltac:(lia) Q1). lia.
Qed.

End ColumnFacts.

Lemma X16_column_is_drawn_witness :
  exists rows,
    draw_column (M := Approx.math) MAP initial 0 80 22 40 = Ret rows
    /\ List.length rows = 22%nat.
Proof.
  assert (Hx : (0 <= 40 < Z.min 80 1000)%Z) by (vm_compute; split; congruence).
  assert (Hf : (0 <= 0 < 3)%Z) by lia.
  assert (Hnz : forall e, In e (enemies initial) -> e_alive e = true ->
                  ~ enemy_dist (M := Approx.math) (player_x initial) (player_y initial) e == 0).
  { intros e Hin _ H. simpl in Hin.
    repeat (destruct Hin as [<- | Hin]; [vm_compute in H; discriminate H |]).
    contradiction. }
  exact (X16_column_is_drawn (M := Approx.math) MAP initial 0 80 22 40 eq_refl
           approx_cos_positive Hx Hf Hnz).
Defined.

Lemma X17_standing_on_an_enemy_witness :
  draw_column (M := Approx.math) MAP on_first_enemy 0 80 22 40 = Raise ZeroDivisionError.
Proof.
  assert (Hx : (0 <= 40 < Z.min 80 1000)%Z) by (vm_compute; split; congruence).
  assert (Hvh : (1 <= 22 <= 1000)%Z) by lia.
  assert (Hnn : forall e', In e' (enemies on_first_enemy) ->
                  0 <= enemy_dist (M := Approx.math) (player_x on_first_enemy)
                                  (player_y on_first_enemy) e').
  { intros e Hin. simpl in Hin.
    repeat (destruct Hin as [<- | Hin]; [vm_compute; discriminate |]).
    contradiction. }
  apply (X17_standing_on_an_enemy (M := Approx.math) MAP on_first_enemy 0 80 22 40 eq_refl
           approx_cos_positive Hx (mkEnemy 5 3 true 0) Hvh Hnn).
  - left. reflexivity.
  - reflexivity.
  - vm_compute. reflexivity.
  - vm_compute. reflexivity.
Defined.

(** ** Animation clock and muzzle flash *)

(** X18 : The enemy animation clock stays in range (timer in 0..7,
    frame in 0..2, so the frame always indexes the three-character
    animation tables), the frame advances by one (modulo 3) every 8
    passes of the loop, and the clock repeats every 24 passes. *)
Theorem X18_animation_clock (t f : Z) :
  (0 <= t < 8)%Z -> (0 <= f < 3)%Z ->
  (0 <= fst (tick_animation (t, f)) < 8)%Z
  /\ (0 <= snd (tick_animation (t, f)) < 3)%Z
  /\ Nat.iter 8 tick_animation (t, f) = (t, ((f + 1) mod 3)%Z)
  /\ Nat.iter 24 tick_animation (t, f) = (t, f)
  /\ forall ty, exists gl, enemy_glyph ty (snd (tick_animation (t, f))) = Ret gl.
Proof.
  intros Ht Hf.
  assert (Et : (t = 0 \/ t = 1 \/ t = 2 \/ t = 3 \/ t = 4 \/ t = 5 \/ t = 6 \/ t = 7)%Z) by lia.
  assert (Ef : (f = 0 \/ f = 1 \/ f = 2)%Z) by lia.
  assert (Hr : (0 <= snd (tick_animation (t, f)) < 3)%Z).
  { unfold tick_animation. cbn [fst snd]. destruct (t + 1 >=? 8)%Z; cbn [snd]; [| lia].
    apply Z.mod_pos_bound. lia. }
  split.
  { unfold tick_animation. cbn [fst snd].
    destruct (Z.geb_spec (t + 1) 8); cbn [fst]; lia. }
  split; [exact Hr |]. split; [| split].
  - destruct Et as [-> | [-> | [-> | [-> | [-> | [-> | [-> | ->]]]]]]];
      destruct Ef as [-> | [-> | ->]]; vm_compute; reflexivity.
  - destruct Et as [-> | [-> | [-> | [-> | [-> | [-> | [-> | ->]]]]]]];
      destruct Ef as [-> | [-> | ->]]; vm_compute; reflexivity.
  - intro ty. unfold enemy_glyph.
    destruct (ty =? 0)%Z; [| destruct (ty =? 1)%Z];
      match goal with
      | |- context [Py.index ?l ?i] =>
        destruct (index_some l i) as (c & -> & _); [simpl; lia | eexists; reflexivity]
      end.
Qed.

Lemma X18_animation_clock_witness :
  Nat.iter 8 tick_animation (0%Z, 0%Z) = (0%Z, 1%Z).
Proof.
  assert (Ht : (0 <= 0 < 8)%Z) by lia.
  assert (Hf : (0 <= 0 < 3)%Z) by lia.
  exact (proj1 (proj2 (proj2 (X18_animation_clock 0 0 Ht Hf)))).
Defined.

Lemma draw_weapon_flash (h : Z) (t : game) :
  (8 < h)%Z -> shooting t = true -> (shot_timer t < 3)%Z ->
  shooting (draw_weapon h t) = true /\ shot_timer (draw_weapon h t) = (shot_timer t + 1)%Z.
Proof.
  intros Hh Hs Ht. unfold draw_weapon.
  destruct (Z.gtb_spec h 8) as [_ | ?]; [| lia].
  rewrite Hs. destruct (Z.ltb_spec (shot_timer t) 3) as [_ | ?]; [| lia].
  cbn [andb shooting shot_timer]. auto.
Qed.

Lemma draw_weapon_reset (h : Z) (t : game) :
  (8 < h)%Z -> shooting t && (shot_timer t <? 3)%Z = false ->
  shooting (draw_weapon h t) = false /\ shot_timer (draw_weapon h t) = 0%Z.
Proof.
  intros Hh Hc. unfold draw_weapon.
  destruct (Z.gtb_spec h 8) as [_ | ?]; [| lia].
  rewrite Hc. cbn [shooting shot_timer]. auto.
Qed.

(** X19 : On a terminal of more than 8 rows a shot shows the muzzle
    flash for exactly three frames: the flash condition
    [shooting and shot_timer < 3] holds when the weapon is drawn in the
    frame of the shot and in the next two frames, fails in the third
    frame after it, and that frame resets the flag and the timer. *)
Theorem X19_muzzle_flash {M : Math} (rand : nat -> Q) (g : grid) (h : Z) (s : game) :
  (0 < ammo s)%Z -> (8 < h)%Z ->
  exists s1 s2 s3 s4,
    frame rand g (ord_space, h) s = Ret s1
    /\ frame rand g (-1, h)%Z s1 = Ret s2
    /\ frame rand g (-1, h)%Z s2 = Ret s3
    /\ frame rand g (-1, h)%Z s3 = Ret s4
    /\ shooting (shoot rand s) && (shot_timer (shoot rand s) <? 3)%Z = true
    /\ shooting s1 && (shot_timer s1 <? 3)%Z = true
    /\ shooting s2 && (shot_timer s2 <? 3)%Z = true
    /\ shooting s3 && (shot_timer s3 <? 3)%Z = false
    /\ shooting s4 = false /\ shot_timer s4 = 0%Z.
Proof.
  intros Ha Hh.
  set (s0 := shoot rand s).
  assert (H0 : shooting s0 = true /\ shot_timer s0 = 0%Z).
  { unfold s0. rewrite (shoot_val rand s Ha). cbv zeta. cbn [shooting shot_timer]. auto. }
  destruct H0 as (A0 & T0).
  destruct (draw_weapon_flash h s0 Hh A0 ltac:(lia)) as (A1 & T1).
  destruct (draw_weapon_flash h (draw_weapon h s0) Hh A1 ltac:(lia)) as (A2 & T2).
  destruct (draw_weapon_flash h (draw_weapon h (draw_weapon h s0)) Hh A2 ltac:(lia))
    as (A3 & T3).
  assert (C3 : shooting (draw_weapon h (draw_weapon h (draw_weapon h s0)))
               && (shot_timer (draw_weapon h (draw_weapon h (draw_weapon h s0))) <? 3)%Z
               = false).
  { rewrite A3. cbn [andb]. apply Z.ltb_ge. lia. }
  destruct (draw_weapon_reset h _ Hh C3) as (A4 & T4).
  exists (draw_weapon h s0), (draw_weapon h (draw_weapon h s0)),
    (draw_weapon h (draw_weapon h (draw_weapon h s0))),
    (draw_weapon h (draw_weapon h (draw_weapon h (draw_weapon h s0)))).
  split; [reflexivity |]. split; [reflexivity |]. split; [reflexivity |].
  split; [reflexivity |].
  split; [rewrite A0; cbn [andb]; apply Z.ltb_lt; lia |].
  split; [rewrite A1; cbn [andb]; apply Z.ltb_lt; lia |].
  split; [rewrite A2; cbn [andb]; apply Z.ltb_lt; lia |].
  split; [exact C3 |]. split; [exact A4 | exact T4].
Qed.

Lemma X19_muzzle_flash_witness :
  exists s1,
    frame (M := Approx.math) no_luck MAP (ord_space, 24%Z) initial = Ret s1
    /\ shot_timer s1 = 1%Z.
Proof.
  assert (Ha : (0 < ammo initial)%Z) by (vm_compute; reflexivity).
  assert (Hh : (8 < 24)%Z) by lia.
  destruct (X19_muzzle_flash (M := Approx.math) no_luck MAP 24 initial Ha Hh)
    as (s1 & s2 & s3 & s4 & H1 & _).
  exists s1. split; [exact H1 |].
  vm_compute in H1. injection H1 as <-. reflexivity.
Defined.

(** ** Radar *)

(** X20 : The radar is between 10 and 15 cells wide, whatever the
    terminal size; and whenever it is shown, the radar with its border
    lies inside the screen, so every position check made while drawing
    it succeeds. *)
Theorem X20_radar_fits (w h : Z) :
  (10 <= radar_size w h <= 15)%Z
  /\ (radar_shown w h = true ->
      (0 <= radar_x w h - 1)%Z
      /\ (radar_x w h + radar_size w h < w)%Z
      /\ (0 <= radar_y - 1)%Z
      /\ (radar_y + radar_size w h < h)%Z
      /\ forall x y, (0 <= x < radar_size w h)%Z -> (0 <= y < radar_size w h)%Z ->
                     (0 <= radar_y + y < h)%Z /\ (0 <= radar_x w h + x < w)%Z).
Proof.
  assert (Hs : (10 <= radar_size w h <= 15)%Z) by (unfold radar_size; lia).
  split; [exact Hs |].
  unfold radar_shown, radar_x, radar_y. intro H. apply andb_prop in H as (H1 & H2).
  apply Z.gtb_lt in H1, H2.
  repeat split; try lia.
Qed.

Lemma X20_radar_fits_witness :
  radar_shown 80 24 = true /\ (radar_x 80 24 + radar_size 80 24 < 80)%Z.
Proof.
  assert (H : radar_shown 80 24 = true) by reflexivity.
  split; [exact H |].
  destruct (X20_radar_fits 80 24) as (_ & Hin).
  destruct (Hin H) as (_ & Hr & _). exact Hr.
Defined.

Lemma radar_arg (p : Q) (rs x : Z) :
  p - inject_Z rs / 1 / 2 + inject_Z x / 1 == p - inject_Z rs * (1 # 2) + inject_Z x.
Proof. field. Qed.

(** X21 : Radar columns (and rows) show consecutive map columns as long
    as the window position [p - radar_size/2 + x] is not negative; but
    where that position lies strictly between -1 and 0, truncation
    toward zero sends radar cell [x] and radar cell [x + 1] to the
    same map column 0: near the left or top edge of the map, the edge
    column is shown twice. *)
Theorem X21_radar_columns (p : Q) (rs x : Z) :
  (0 <= p - inject_Z rs * (1 # 2) + inject_Z x ->
   radar_map_pos p rs (x + 1) = (radar_map_pos p rs x + 1)%Z)
  /\ (-1 < p - inject_Z rs * (1 # 2) + inject_Z x ->
      p - inject_Z rs * (1 # 2) + inject_Z x < 0 ->
      radar_map_pos p rs x = 0%Z /\ radar_map_pos p rs (x + 1) = 0%Z).
Proof.
  set (a := p - inject_Z rs * (1 # 2) + inject_Z x).
  assert (E0 : radar_map_pos p rs x = Py.int a).
  { unfold radar_map_pos. apply int_proper. apply radar_arg. }
  assert (E1 : radar_map_pos p rs (x + 1) = Py.int (a + 1)).
  { unfold radar_map_pos. apply int_proper. rewrite radar_arg. unfold a.
    rewrite inject_Z_plus. change (inject_Z 1) with 1. ring. }
  rewrite E0, E1. split.
  - intro Ha. rewrite !int_floor by lra.
    apply floor_unique.
    + rewrite inject_Z_plus. change (inject_Z 1) with 1. pose proof (Qfloor_le a). lra.
    + rewrite !inject_Z_plus. change (inject_Z 1) with 1.
      pose proof (Qlt_floor a) as H. rewrite inject_Z_plus in H.
      change (inject_Z 1) with 1 in H. lra.
  - intros Hlo Hhi. split.
    + rewrite int_ceiling by lra. unfold Qceiling.
      rewrite (floor_unique (- a) 0); [reflexivity | |].
      * change (inject_Z 0) with 0. lra.
      * change (inject_Z (0 + 1)) with 1. lra.
    + rewrite int_floor by lra. apply floor_unique.
      * change (inject_Z 0) with 0. lra.
      * change (inject_Z (0 + 1)) with 1. lra.
Qed.

Lemma X21_radar_columns_witness :
  radar_map_pos (player_x initial) 15 5 = 0%Z
  /\ radar_map_pos (player_x initial) 15 (5 + 1) = 0%Z.
Proof.
  destruct (X21_radar_columns (player_x initial) 15 5) as (_ & H).
  apply H; vm_compute; reflexivity.
Defined.

Lemma overlay_none (es : list enemy) (mx my : Z) :
  forall cur,
    (forall e, In e es -> stands_at mx my e = false) ->
    overlay_enemies es mx my cur = cur.
Proof.
  induction es as [| e es IH]; intros cur H; cbn [overlay_enemies]; [reflexivity |].
  rewrite (H e (or_introl eq_refl)). apply IH. intros e' Hin. apply H. now right.
Qed.

Lemma overlay_last (pre post : list enemy) (e : enemy) (mx my : Z) :
  forall cur,
    stands_at mx my e = true ->
    (forall e', In e' post -> stands_at mx my e' = false) ->
    overlay_enemies (pre ++ e :: post) mx my cur = enemy_mark (e_type e).
Proof.
  induction pre as [| p pre IH]; intros cur He Hpost.
  - cbn [app overlay_enemies]. rewrite He. now apply overlay_none.
  - cbn [app overlay_enemies]. now apply IH.
Qed.

(** X22 : Whatever is shown at a radar cell, an enemy appears there
    only if it is alive and stands in that map cell; when some do, the
    mark of the last of them in list order is what is left on screen,
    over the tile and over the player's own marker; when none does, the
    cell shows the player's direction marker (on the player's cell) or
    the tile's symbol. *)
Theorem X22_radar_marks (g : grid) (s : game) (rs x y : Z) (gl : glyph) :
  radar_cell g s rs x y = Some gl ->
  let mx := radar_map_pos (player_x s) rs x in
  let my := radar_map_pos (player_y s) rs y in
  ((forall e, In e (enemies s) -> stands_at mx my e = false) ->
   (mx = Py.int (player_x s) /\ my = Py.int (player_y s)
    /\ gl = mkGlyph (dir_char (player_angle s)) 5 true)
   \/ (exists ch, cell g my mx = Ret ch /\ gl = radar_tile ch))
  /\ (forall pre e post,
        enemies s = pre ++ e :: post ->
        stands_at mx my e = true ->
        (forall e', In e' post -> stands_at mx my e' = false) ->
        e_alive e = true /\ e_x e = mx /\ e_y e = my /\ gl = enemy_mark (e_type e)).
Proof.
  intros H mx my. unfold radar_cell in H. fold mx my in H.
  destruct ((0 <=? my)%Z && (my <? height g)%Z); [| discriminate H].
  destruct (width g) as [w | |]; try discriminate H.
  destruct ((0 <=? mx)%Z && (mx <? w)%Z); [| discriminate H].
  assert (Hst : forall e, stands_at mx my e = true ->
                  e_alive e = true /\ e_x e = mx /\ e_y e = my).
  { intros e He. unfold stands_at in He. apply andb_prop in He as (He & E2).
    apply andb_prop in He as (E0 & E1). apply Z.eqb_eq in E1, E2. auto. }
  destruct ((mx =? Py.int (player_x s))%Z && (my =? Py.int (player_y s))%Z) eqn:Ep.
  - injection H as <-. split.
    + intro Hnone. left. apply andb_prop in Ep as (E1 & E2). apply Z.eqb_eq in E1, E2.
      rewrite overlay_none by exact Hnone. auto.
    + intros pre e post -> He Hpost. destruct (Hst e He) as (A & B & C).
      repeat split; auto. now apply overlay_last.
  - destruct (cell g my mx) as [ch | |] eqn:Ec; try discriminate H.
    injection H as <-. split.
    + intro Hnone. right. exists ch. rewrite overlay_none by exact Hnone. auto.
    + intros pre e post -> He Hpost. destruct (Hst e He) as (A & B & C).
      repeat split; auto. now apply overlay_last.
Qed.

Lemma X22_radar_marks_witness :
  exists gl,
    radar_cell MAP initial 15 11 9 = Some gl /\ gl = enemy_mark 0.
Proof.
  assert (H : { gl | radar_cell MAP initial 15 11 9 = Some gl }).
  { eexists. vm_compute. reflexivity. }
  destruct H as (gl & H). exists gl. split; [exact H |].
  destruct (X22_radar_marks MAP initial 15 11 9 gl H) as (_ & Hm).
  destruct (Hm [] (mkEnemy 5 3 true 0) (tl ENEMIES) eq_refl) as (_ & _ & _ & Hg).
  - vm_compute. reflexivity.
  - intros e' Hin. simpl in Hin.
    repeat (destruct Hin as [<- | Hin]; [vm_compute; reflexivity |]). contradiction.
  - exact Hg.
Defined.

(** ** Angles, sky, and whole runs *)


(** X24 : Above the wall band, every row is drawn in the sky colour,
    and the dot appears exactly on the rows of the top fifth of the sky
    ([5 * y < ceiling]); the other sky rows are blank. *)
Theorem X24_sky_rows (y ceiling : Z) :
  (0 <= y < ceiling)%Z ->
  g_pair (sky_glyph y ceiling) = 2%Z
  /\ ((5 * y < ceiling)%Z -> g_char (sky_glyph y ceiling) = 183%Z)
  /\ ((ceiling <= 5 * y)%Z -> g_char (sky_glyph y ceiling) = 32%Z).
Proof.
  intro Hy. unfold sky_glyph.
  destruct (Z.gtb_spec ceiling 0) as [_ | ?]; [| lia].
  set (Y := inject_Z y). set (C := inject_Z ceiling). set (q := Y / C).
  assert (HC : 0 < C) by (unfold C; change 0 with (inject_Z 0); rewrite <- Zlt_Qlt; lia).
  assert (HY : 0 <= Y) by (unfold Y; change 0 with (inject_Z 0); rewrite <- Zle_Qle; lia).
  assert (Hq : q * C == Y) by (unfold q; field; lra).
  assert (Hq0 : 0 <= q) by (apply (quotient_bounds q C Y 0 HC Hq); lra).
  assert (HYC : Y < C) by (unfold Y, C; rewrite <- Zlt_Qlt; lia).
  assert (Hq1 : q < 1).
  { destruct (Qlt_le_dec q 1) as [L | L]; [exact L | exfalso].
    assert (0 <= (q - 1) * C) by (apply Qmult_le_0_compat; lra). lra. }
  assert (Hshade : fmax 0 (fmin 1 (1 - q)) == 1 - q).
  { unfold fmax, fmin.
    destruct (Py.ltb (1 - q) 1) eqn:E1; [apply ltb_lt in E1 | apply ltb_ge in E1].
    - destruct (Py.ltb 0 (1 - q)) eqn:E2; [reflexivity | apply ltb_ge in E2; lra].
    - destruct (Py.ltb 0 1) eqn:E2; [lra | discriminate E2]. }
  split.
  { repeat destruct (Py.ltb _ _); reflexivity. }
  split; intro H5.
  - assert (Hfifth : q < 1 # 5).
    { destruct (Qlt_le_dec q (1 # 5)) as [L | L]; [exact L | exfalso].
      assert (0 <= (q - (1 # 5)) * C) by (apply Qmult_le_0_compat; lra).
      assert (5 * Y < C).
      { unfold Y, C. change 5 with (inject_Z 5). rewrite <- inject_Z_mult, <- Zlt_Qlt. lia. }
      lra. }
    destruct (Py.ltb (8 # 10) (fmax 0 (fmin 1 (1 - q)))) eqn:E; [reflexivity |].
    apply ltb_ge in E. lra.
  - assert (Hfifth : 1 # 5 <= q).
    { apply (quotient_bounds q C Y (1 # 5) HC Hq).
      assert (C <= 5 * Y).
      { unfold Y, C. change 5 with (inject_Z 5). rewrite <- inject_Z_mult, <- Zle_Qle. lia. }
      lra. }
    destruct (Py.ltb (8 # 10) (fmax 0 (fmin 1 (1 - q)))) eqn:E.
    + apply ltb_lt in E. lra.
    + destruct (Py.ltb (5 # 10) _); reflexivity.
Qed.

Lemma X24_sky_rows_witness :
  g_char (sky_glyph 1 10) = 183%Z /\ g_char (sky_glyph 2 10) = 32%Z.
Proof.
  assert (H1 : (0 <= 1 < 10)%Z) by lia.
  assert (H2 : (0 <= 2 < 10)%Z) by lia.
  split.
  - apply (X24_sky_rows 1 10 H1). lia.
  - apply (X24_sky_rows 2 10 H2). lia.
Defined.



(** X26 : A whole view is drawn without an exception: on a rectangular
    map, with an animation frame in 0..2 and no living enemy at
    distance exactly 0, the renderer returns [min(width, 1000)] columns
    of [min(view_height, 1000)] rows each. *)
Theorem X26_view_is_drawn {M : Math} (g : grid) (s : game) (frame width vh : Z) :
  rectangular g = true ->
  (forall a, -90 < a -> a < 90 -> 0 < dcos a) ->
  (0 <= frame < 3)%Z ->
  (forall e, In e (enemies s) -> e_alive e = true ->
             ~ enemy_dist (player_x s) (player_y s) e == 0) ->
  exists cols,
    draw_view g s frame width vh = Ret cols
    /\ List.length cols = Z.to_nat (Z.min width 1000)
    /\ Forall (fun c => List.length c = Z.to_nat (Z.min vh 1000)) cols.
Proof.
  intros Hrect Hcos Hf Hnz. unfold draw_view.
  assert (Hgen : forall n x,
            (0 <= x)%Z -> (x + Z.of_nat n <= Z.min width 1000)%Z ->
            exists cols,
              draw_columns g s frame width vh x n = Ret cols
              /\ List.length cols = n
              /\ Forall (fun c => List.length c = Z.to_nat (Z.min vh 1000)) cols).
  { induction n as [| n IH]; intros x Hx0 Hxn; cbn [draw_columns].
    - exists []. repeat split. constructor.
    - assert (Hx : (0 <= x < Z.min width 1000)%Z) by lia.
      assert (Hcol : exists rows,
                 draw_column g s frame width vh x = Ret rows
                 /\ List.length rows = Z.to_nat (Z.min vh 1000)).
      { unfold draw_column.
        destruct (column_returns g s width vh x Hrect Hcos Hx) as (r & -> & Hpos).
        cbn [bind fst snd]. apply draw_rows_total; [lra | exact Hf |].
        intros ed Hed.
        destruct (find_enemy_acc (player_x s) (player_y s)
                    (ray_angle (player_angle s) width x)
                    (distance_to_wall r * fisheye_correction (player_angle s) width x)
                    (enemies s) no_sprite)
          as [(Hs & _) | (e & Hin & (Ha & _) & _ & Hs & _)]; rewrite Hs in Hed.
        - discriminate Hed.
        - injection Hed as <-. now apply Hnz. }
      destruct Hcol as (rows & -> & Hlen). cbn [bind].
      destruct (IH (x + 1)%Z ltac:(lia) ltac:(lia)) as (cols & -> & Hl & Hall).
      cbn [bind]. exists (rows :: cols). split; [reflexivity |].
      split; [simpl; now rewrite Hl | now constructor]. }
  destruct (Z_lt_le_dec (Z.min width 1000) 0) as [Hneg | Hpos].
  - replace (Z.to_nat (Z.min width 1000)) with 0%nat by lia.
    exists []. repeat split. constructor.
  - apply Hgen; [lia |]. rewrite Z2Nat.id by exact Hpos. lia.
Qed.

Lemma X26_view_is_drawn_witness :
  exists cols,
    draw_view (M := Approx.math) MAP initial 0 80 22 = Ret cols
    /\ List.length cols = 80%nat.
Proof.
  assert (Hf : (0 <= 0 < 3)%Z) by lia.
  assert (Hnz : forall e, In e (enemies initial) -> e_alive e = true ->
                  ~ enemy_dist (M := Approx.math) (player_x initial) (player_y initial) e == 0).
  { intros e Hin _ H. simpl in Hin.
    repeat (destruct Hin as [<- | Hin]; [vm_compute in H; discriminate H |]).
    contradiction. }
  destruct (X26_view_is_drawn (M := Approx.math) MAP initial 0 80 22 eq_refl
              approx_cos_positive Hf Hnz) as (cols & Hrun & Hl & _).
  exists cols. split; [exact Hrun | exact Hl].
Defined.
